(** * Nostalgist: the emulator runtime bridge (src/emulator.ts)

    A shallow embedding of the [Emulator] class: the command channel
    ([sendCommand] / [stdin]), the pause state machine, the state-file path
    derivation, the file poller ([waitForEmscriptenFile]), the save/load/exit
    operations and the config serializer ([writeConfigFile]).

    Conventions of the embedding.
    - A JavaScript string is a [string]; its characters stand for code units.
      Every string the development computes with is ASCII, where a code unit,
      a character and a UTF-8 byte coincide.
    - A [Uint8Array] / [ArrayBuffer] is a [list byte].
    - A JavaScript number that the code only uses as an integer is a [Z] (or a
      [nat] where it is a counter or an index that starts at 0 and only grows).
      A number held in the configuration is carried as the text JavaScript
      prints for it.
    - A method of the class is a computation in the monad [M]: it receives the
      object ([Emulator]) and returns the possibly mutated object together with
      either a value or the thrown exception.  Mutations made before a throw
      persist, as they do in JavaScript.
    - An asynchronous method is given twice: as the computation that runs it
      to its end while nothing else runs, a rejected promise being a thrown
      exception, and as the stretches of its body between its awaits, which
      a session may interleave with other steps.
    - Calls into the emscripten runtime, the DOM and the timer are appended to
      the [calls] log of the object; what the outside world answers is read
      from an [Externals] record.  The two calls that the source expects to
      fail, [FS.unlink] and [FS.readFile], may raise; the others return. *)

From Stdlib Require Import String Ascii List ZArith Lia Bool Arith.
From Stdlib Require Init.Byte.
Import ListNotations.

Set Implicit Arguments.

Local Open Scope string_scope.
Local Open Scope list_scope.
Local Open Scope nat_scope.

Definition byte : Set := Byte.byte.

(** The line feed, written ['\n'] in the source. *)
Definition LF : string := String (ascii_of_nat 10) EmptyString.

(** The double quote character (code 34). *)
Definition DQUOTE : string := String (ascii_of_nat 34) EmptyString.

(** ** JavaScript string primitives used by the source *)

Module JS.

(** [s.lastIndexOf(search)]: the largest index at which [search] occurs in
    [s], or [-1]. *)
Fixpoint lastIndexOf_from (search s : string) (i acc : Z) : Z :=
  let acc' := if String.prefix search s then i else acc in
  match s with
  | EmptyString => acc'
  | String _ rest => lastIndexOf_from search rest (i + 1) acc'
  end.

Definition lastIndexOf (s search : string) : Z :=
  lastIndexOf_from search s 0 (-1).

(** Relative index resolution of [slice]: a negative index counts from the
    end, and the result is clamped to [0 .. len]. *)
Definition clampIndex (len i : Z) : Z :=
  if (i <? 0)%Z then Z.max (len + i) 0 else Z.min i len.

(** [s.slice(start, end)]. *)
Definition slice (s : string) (start end_ : Z) : string :=
  let len := Z.of_nat (String.length s) in
  let from := clampIndex len start in
  let to := clampIndex len end_ in
  String.substring (Z.to_nat from) (Z.to_nat (Z.max (to - from) 0)) s.

(** [s.replaceAll(pat, rep)] for a non-empty [pat]: occurrences are replaced
    from left to right and do not overlap.  [skip] counts the characters of
    the occurrence just replaced that are still to be dropped. *)
Fixpoint replaceAll_skip (pat rep s : string) (skip : nat) : string :=
  match s with
  | EmptyString => EmptyString
  | String c rest =>
      match skip with
      | S k => replaceAll_skip pat rep rest k
      | O =>
          if String.prefix pat s
          then rep ++ replaceAll_skip pat rep rest (String.length pat - 1)
          else String c (replaceAll_skip pat rep rest 0)
      end
  end.

Definition replaceAll (s pat rep : string) : string :=
  replaceAll_skip pat rep s 0.

(** [s.includes(pat)]. *)
Fixpoint includes (s pat : string) : bool :=
  String.prefix pat s ||
  match s with
  | EmptyString => false
  | String _ rest => includes rest pat
  end.

(** [s.endsWith(pat)]. *)
Fixpoint endsWith (s pat : string) : bool :=
  String.eqb s pat ||
  match s with
  | EmptyString => false
  | String _ rest => endsWith rest pat
  end.

(** Flat configuration values: boolean, number or string.  A number is
    carried as the text JavaScript prints for it, which is what
    Number::toString returns: 4, -12, 0.5, 1e+21, Infinity, NaN.  The code
    only ever converts a configuration number to a string or tests it for
    truth, and both are read off that text; the two zeros print as 0. *)
Inductive Scalar : Type :=
| Bool (b : bool)
| Num (printed : string)
| Str (s : string).

(** [String(v)], the conversion a template literal applies. *)
Definition ToString (v : Scalar) : string :=
  match v with
  | Bool true => "true"
  | Bool false => "false"
  | Num printed => printed
  | Str s => s
  end.

(** Truthiness, as tested by [if (v)]: [false], the zeros, NaN and the empty
    string are falsy. *)
Definition truthy (v : Scalar) : bool :=
  match v with
  | Bool b => b
  | Num printed => negb (String.eqb printed "0" || String.eqb printed "NaN")
  | Str s => negb (String.eqb s "")
  end.

(** Thrown values. *)
Inductive Exception : Type :=
| TypeError (message : string)
| Error (message : string).

(** How a call ends. *)
Inductive Completion (A : Type) : Type :=
| Return (a : A)
| Throw (e : Exception).

Arguments Return {A} a.
Arguments Throw {A} e.

End JS.

Import JS.

(** [new TextEncoder().encode(s)]: UTF-8, one byte per ASCII character. *)
Definition encoder_encode (s : string) : list byte :=
  List.map byte_of_ascii (list_ascii_of_string s).

(** ** Commands *)

Inductive RetroArchCommand : Type :=
| FAST_FORWARD | FAST_FORWARD_HOLD | LOAD_STATE | SAVE_STATE
| FULLSCREEN_TOGGLE | QUIT | STATE_SLOT_PLUS | STATE_SLOT_MINUS | REWIND
| MOVIE_RECORD_TOGGLE | PAUSE_TOGGLE | FRAMEADVANCE | RESET | SHADER_NEXT
| SHADER_PREV | CHEAT_INDEX_PLUS | CHEAT_INDEX_MINUS | CHEAT_TOGGLE
| SCREENSHOT | MUTE | NETPLAY_FLIP | SLOWMOTION | VOLUME_UP | VOLUME_DOWN
| OVERLAY_NEXT | DISK_EJECT_TOGGLE | DISK_NEXT | DISK_PREV
| GRAB_MOUSE_TOGGLE | MENU_TOGGLE.

(** The string each member of the union type stands for. *)
Definition commandName (msg : RetroArchCommand) : string :=
  match msg with
  | FAST_FORWARD => "FAST_FORWARD"
  | FAST_FORWARD_HOLD => "FAST_FORWARD_HOLD"
  | LOAD_STATE => "LOAD_STATE"
  | SAVE_STATE => "SAVE_STATE"
  | FULLSCREEN_TOGGLE => "FULLSCREEN_TOGGLE"
  | QUIT => "QUIT"
  | STATE_SLOT_PLUS => "STATE_SLOT_PLUS"
  | STATE_SLOT_MINUS => "STATE_SLOT_MINUS"
  | REWIND => "REWIND"
  | MOVIE_RECORD_TOGGLE => "MOVIE_RECORD_TOGGLE"
  | PAUSE_TOGGLE => "PAUSE_TOGGLE"
  | FRAMEADVANCE => "FRAMEADVANCE"
  | RESET => "RESET"
  | SHADER_NEXT => "SHADER_NEXT"
  | SHADER_PREV => "SHADER_PREV"
  | CHEAT_INDEX_PLUS => "CHEAT_INDEX_PLUS"
  | CHEAT_INDEX_MINUS => "CHEAT_INDEX_MINUS"
  | CHEAT_TOGGLE => "CHEAT_TOGGLE"
  | SCREENSHOT => "SCREENSHOT"
  | MUTE => "MUTE"
  | NETPLAY_FLIP => "NETPLAY_FLIP"
  | SLOWMOTION => "SLOWMOTION"
  | VOLUME_UP => "VOLUME_UP"
  | VOLUME_DOWN => "VOLUME_DOWN"
  | OVERLAY_NEXT => "OVERLAY_NEXT"
  | DISK_EJECT_TOGGLE => "DISK_EJECT_TOGGLE"
  | DISK_NEXT => "DISK_NEXT"
  | DISK_PREV => "DISK_PREV"
  | GRAB_MOUSE_TOGGLE => "GRAB_MOUSE_TOGGLE"
  | MENU_TOGGLE => "MENU_TOGGLE"
  end.

(** ** Constants of the module *)

Definition raUserdataDir : string := "/home/web_user/retroarch/userdata/".
Definition raCoreConfigDir : string := raUserdataDir ++ "config/".
Definition raConfigPath : string := raUserdataDir ++ "retroarch.cfg".

(** ** The object *)

Inductive GameStatus : Type := initial | paused | running.

(** The only value ever stored in [processStatus]. *)
Inductive ProcessStatus : Type := terminated.

Record Asset : Type := {
  fileName : string;
  fileContent : list byte
}.

Record Core : Type := {
  name : string;
  js : string;
  wasm : list byte
}.

(** The options handed to the constructor.  [retroarch] is the flat
    configuration object, as the list of its entries in property enumeration
    order.  The canvas [element] is always present and has no field here; the
    calls made on it are logged. *)
Record Options : Type := {
  rom : list Asset;
  bios : list Asset;
  core : Core;
  retroarch : list (string * Scalar)
}.

(** What is written by [FS.writeFile]. *)
Inductive FileData : Type :=
| Text (content : string)
| Binary (content : list byte).

(** Calls that leave the object: the emscripten file system and module, the
    DOM, the timer and the console. *)
Inductive Call : Type :=
| FS_unlink (path : string)
| FS_readFile (path : string)
| FS_writeFile (path : string) (data : FileData)
| FS_mkdirTree (path : string)
| FS_unmount (path : string)
| emscripten_exit (statusCode : Z)
| JSEvents_removeAllEventListeners
| Module_setCanvasSize (width height : Z)
| element_remove
| console_warn
| delay (time : Z).

(** The handle returned by [getEmscripten]; [this.emscripten] is [undefined]
    ([None]) until [setupEmscripten] has stored it. *)
Inductive Emscripten : Type := EmscriptenHandle.

Record Emulator : Type := {
  options : Options;
  emscripten : option Emscripten;
  messageQueue : list (list byte * nat);
  gameStatus : GameStatus;
  processStatus : option ProcessStatus;
  calls : list Call
}.

(** [new Emulator(options)]. *)
Definition constructor (o : Options) : Emulator :=
  {| options := o;
     emscripten := None;
     messageQueue := [];
     gameStatus := initial;
     processStatus := None;
     calls := [] |}.

Definition set_messageQueue (q : list (list byte * nat)) (e : Emulator) : Emulator :=
  {| options := options e; emscripten := emscripten e; messageQueue := q;
     gameStatus := gameStatus e; processStatus := processStatus e;
     calls := calls e |}.

Definition set_gameStatus (g : GameStatus) (e : Emulator) : Emulator :=
  {| options := options e; emscripten := emscripten e;
     messageQueue := messageQueue e; gameStatus := g;
     processStatus := processStatus e; calls := calls e |}.

Definition set_processStatus (p : option ProcessStatus) (e : Emulator) : Emulator :=
  {| options := options e; emscripten := emscripten e;
     messageQueue := messageQueue e; gameStatus := gameStatus e;
     processStatus := p; calls := calls e |}.

Definition set_options (o : Options) (e : Emulator) : Emulator :=
  {| options := o; emscripten := emscripten e;
     messageQueue := messageQueue e; gameStatus := gameStatus e;
     processStatus := processStatus e; calls := calls e |}.

Definition set_emscripten (m : option Emscripten) (e : Emulator) : Emulator :=
  {| options := options e; emscripten := m;
     messageQueue := messageQueue e; gameStatus := gameStatus e;
     processStatus := processStatus e; calls := calls e |}.

Definition log_call (c : Call) (e : Emulator) : Emulator :=
  {| options := options e; emscripten := emscripten e;
     messageQueue := messageQueue e; gameStatus := gameStatus e;
     processStatus := processStatus e; calls := calls e ++ [c] |}.

(** ** The monad of methods *)

Definition M (A : Type) : Type := Emulator -> Completion A * Emulator.

Definition ret {A} (a : A) : M A := fun e => (Return a, e).

Definition throw {A} (x : Exception) : M A := fun e => (Throw x, e).

Definition bind {A B} (m : M A) (k : A -> M B) : M B :=
  fun e =>
    match m e with
    | (Return a, e') => k a e'
    | (Throw x, e') => (Throw x, e')
    end.

(** Reading a field of the object. *)
Definition get {A} (field : Emulator -> A) : M A := fun e => (Return (field e), e).

Definition update (f : Emulator -> Emulator) : M unit :=
  fun e => (Return tt, f e).

(** [try { body } catch {}]. *)
Definition try_catch (body : M unit) : M unit :=
  fun e =>
    match body e with
    | (Return _, e') => (Return tt, e')
    | (Throw _, e') => (Return tt, e')
    end.

Declare Scope method_scope.
Delimit Scope method_scope with method.
Notation "x <- m ;; k" := (bind m (fun x => k))
  (at level 61, m at next level, right associativity) : method_scope.
Notation "m ;; k" := (bind m (fun _ => k))
  (at level 61, right associativity) : method_scope.
Local Open Scope method_scope.

(** The state a method leaves and the way it ends. *)
Definition after {A} (m : M A) (e : Emulator) : Emulator := snd (m e).
Definition outcome {A} (m : M A) (e : Emulator) : Completion A := fst (m e).

(** ** The command channel *)

(** [sendCommand(msg)]. *)
Definition sendCommand (msg : RetroArchCommand) : M unit :=
  let bytes := encoder_encode (commandName msg ++ LF)%string in
  update (fun e => set_messageQueue (messageQueue e ++ [(bytes, 0)]) e).

(** The loop of [stdin] over the queue: an exhausted head is shifted away,
    otherwise the head's index advances and the byte under it is returned.
    [None] is [null]. *)
Fixpoint stdin_loop (messageQueue : list (list byte * nat))
  : option byte * list (list byte * nat) :=
  match messageQueue with
  | [] => (None, [])
  | (msg, index) :: rest =>
      if (List.length msg <=? index)%nat
      then stdin_loop rest
      else (nth_error msg index, (msg, index + 1) :: rest)
  end.

(** [stdin()]. *)
Definition stdin : M (option byte) :=
  messageQueue <- get messageQueue ;;
  let (b, q) := stdin_loop messageQueue in
  update (set_messageQueue q) ;;
  ret b.

(** ** Pause state machine *)

(** [resume()]. *)
Definition resume : M unit :=
  status <- get gameStatus ;;
  match status with
  | paused => sendCommand PAUSE_TOGGLE
  | _ => ret tt
  end ;;
  update (set_gameStatus running).

(** [restart()]. *)
Definition restart : M unit :=
  sendCommand RESET ;;
  resume.

(** [pause()]. *)
Definition pause : M unit :=
  status <- get gameStatus ;;
  match status with
  | running => sendCommand PAUSE_TOGGLE
  | _ => ret tt
  end ;;
  update (set_gameStatus paused).

(** ** The outside world *)

(** [new Blob([buffer], { type })], where [buffer] is what the poller
    returned. *)
Record Blob : Type := {
  blobParts : option (list byte);
  type : string
}.

(** What the embedding takes from outside src/emulator.ts.
    - [coreFullNameMap] is the table of ./constants ([None]: no such key).
    - [blobToBuffer] is the helper of ./utils.
    - [ini_stringify config] is [ini.stringify(config, { whitespace: true,
      platform: 'linux' })] of the ini package, applied to an object whose
      values are all strings.
    - [FS_unlink_throws history path] tells whether [FS.unlink(path)] raises
      when called after the calls of [history].
    - [FS_readFile_result path k] is the outcome of the read attempt number
      [k] (from 0) that a poll makes of [path]; [None] when [FS.readFile]
      raises. *)
Record Externals : Type := {
  coreFullNameMap : string -> option string;
  blobToBuffer : Blob -> list byte;
  ini_stringify : list (string * string) -> string;
  FS_unlink_throws : list Call -> string -> bool;
  FS_readFile_result : string -> nat -> option (list byte)
}.

(** A property lookup interpolated into a template literal. *)
Definition interpolate (v : option string) : string :=
  match v with
  | Some s => s
  | None => "undefined"
  end.

(** ** Canonical paths *)

(** [get stateFileName()]. *)
Definition stateFileName (x : Externals) (e : Emulator) : Completion string :=
  match rom (options e) with
  | [] => Throw (TypeError "Cannot destructure property 'fileName' of undefined")
  | first :: _ =>
      let fileName := fileName first in
      let baseName := slice fileName 0 (lastIndexOf fileName ".") in
      let coreFullName := coreFullNameMap x (name (core (options e))) in
      Return (raUserdataDir ++ "states/" ++ interpolate coreFullName ++ "/"
                ++ baseName ++ ".state")%string
  end.

(** [get stateThumbnailFileName()]. *)
Definition stateThumbnailFileName (x : Externals) (e : Emulator) : Completion string :=
  match stateFileName x e with
  | Return p => Return (p ++ ".png")%string
  | Throw err => Throw err
  end.

(** Reading a getter of the object inside a method. *)
Definition getter {A} (g : Emulator -> Completion A) : M A :=
  fun e => (g e, e).

(** The error of destructuring [undefined]. *)
Definition destructure_error : Exception :=
  TypeError "Cannot destructure 'this.emscripten' as it is undefined.".

(** [const { ... } = this.emscripten]. *)
Definition destructure_emscripten : M Emscripten :=
  handle <- get emscripten ;;
  match handle with
  | Some m => ret m
  | None => throw destructure_error
  end.

(** ** The file poller *)

Definition maxRetries : nat := 30.

(** The locals of the polling loop. *)
Record PollState : Type := {
  buffer : option (list byte);
  isFinished : bool;
  retryTimes : nat
}.

(** [Math.min(100 * 2 ** retryTimes, 1000)]. *)
Definition delayTime (retryTimes : nat) : Z :=
  Z.min (100 * 2 ^ Z.of_nat retryTimes) 1000.

(** [buffer?.byteLength > 0 && buffer?.byteLength === newBuffer.byteLength]. *)
Definition sameNonEmptyLength (buffer : option (list byte)) (newBuffer : list byte) : bool :=
  match buffer with
  | None => false
  | Some b => (0 <? List.length b)%nat && (List.length b =? List.length newBuffer)%nat
  end.

(** The test of the [while]. *)
Definition pollAgain (maxRetries : nat) (st : PollState) : bool :=
  (retryTimes st <=? maxRetries)%nat && negb (isFinished st).

(** One turn of the loop body: wait, read, compare, count. *)
Definition pollOnce (reads : nat -> option (list byte)) (fileName : string)
    (st : PollState) : M PollState :=
  update (log_call (delay (delayTime (retryTimes st)))) ;;
  update (log_call (FS_readFile fileName)) ;;
  match reads (retryTimes st) with
  | Some newBuffer =>
      ret {| buffer := Some newBuffer;
             isFinished := sameNonEmptyLength (buffer st) newBuffer;
             retryTimes := retryTimes st + 1 |}
  | None =>
      update (log_call console_warn) ;;
      ret {| buffer := buffer st;
             isFinished := isFinished st;
             retryTimes := retryTimes st + 1 |}
  end.

(** The [while] loop.  [fuel] bounds the number of turns; [pollLoop_exits]
    shows that [S maxRetries] turns are never used up before the test of the
    loop fails by itself. *)
Fixpoint pollLoop (fuel : nat) (maxRetries : nat)
    (reads : nat -> option (list byte)) (fileName : string)
    (st : PollState) : M PollState :=
  if pollAgain maxRetries st then
    match fuel with
    | O => ret st
    | S fuel' =>
        st' <- pollOnce reads fileName st ;;
        pollLoop fuel' maxRetries reads fileName st'
    end
  else ret st.

(** [waitForEmscriptenFile(fileName)] with the retry ceiling as a parameter;
    [reads k] is the outcome of its read number [k]. *)
Definition waitForEmscriptenFileN (maxRetries : nat)
    (reads : nat -> option (list byte)) (fileName : string)
  : M (option (list byte)) :=
  destructure_emscripten ;;
  st <- pollLoop (S maxRetries) maxRetries reads fileName
          {| buffer := None; isFinished := false; retryTimes := 0 |} ;;
  if negb (isFinished st) then throw (Error "fs timeout")
  else ret (buffer st).

(** [waitForEmscriptenFile(fileName)], reading through the file system. *)
Definition waitForEmscriptenFile (x : Externals) (fileName : string)
  : M (option (list byte)) :=
  waitForEmscriptenFileN maxRetries (FS_readFile_result x fileName) fileName.

(** ** State files *)

(** [FS.unlink(path)]. *)
Definition FS_unlink_call (x : Externals) (path : string) : M unit :=
  fun e =>
    if FS_unlink_throws x (calls e) path
    then (Throw (Error "ErrnoError"), log_call (FS_unlink path) e)
    else (Return tt, log_call (FS_unlink path) e).

(** [clearStateFile()]. *)
Definition clearStateFile (x : Externals) : M unit :=
  destructure_emscripten ;;
  try_catch (
    p <- getter (stateFileName x) ;;
    FS_unlink_call x p ;;
    t <- getter (stateThumbnailFileName x) ;;
    FS_unlink_call x t).

(** *** The poller between its awaits

    [waitForEmscriptenFile] is asynchronous: it gives up control at every
    [await delay(...)].  The three definitions below are the stretches of its
    body that run without interruption; [waitForEmscriptenFileN] above is what
    they amount to when nothing else runs in between
    ([waitForEmscriptenFileN_between_awaits]). *)

(** What a call of [waitForEmscriptenFile] has come to: suspended in
    [await delay(...)] with its locals, or settled. *)
Inductive Polling : Type :=
| Suspended (st : PollState)
| Resolved (bytes : option (list byte))
| Rejected (err : Exception).

(** From the test of the [while] to the next await.  When the test holds,
    the timer is set and the call is suspended; when it fails, the call
    settles with what follows the loop. *)
Definition pollSuspend (maxRetries : nat) (st : PollState) : M Polling :=
  if pollAgain maxRetries st then
    update (log_call (delay (delayTime (retryTimes st)))) ;;
    ret (Suspended st)
  else if negb (isFinished st) then ret (Rejected (Error "fs timeout"))
  else ret (Resolved (buffer st)).

(** The start of the call, which the caller runs up to the first await.  An
    exception in the body of an async function rejects its promise. *)
Definition pollStart (maxRetries : nat) : M Polling :=
  handle <- get emscripten ;;
  match handle with
  | None => ret (Rejected destructure_error)
  | Some _ =>
      pollSuspend maxRetries {| buffer := None; isFinished := false; retryTimes := 0 |}
  end.

(** What runs when the timer of a suspended call fires: the rest of the turn
    of the loop (read, compare, count), then on to the next await. *)
Definition pollResume (maxRetries : nat) (reads : nat -> option (list byte))
    (fileName : string) (st : PollState) : M Polling :=
  update (log_call (FS_readFile fileName)) ;;
  st' <-
    match reads (retryTimes st) with
    | Some newBuffer =>
        ret {| buffer := Some newBuffer;
               isFinished := sameNonEmptyLength (buffer st) newBuffer;
               retryTimes := retryTimes st + 1 |}
    | None =>
        update (log_call console_warn) ;;
        ret {| buffer := buffer st;
               isFinished := isFinished st;
               retryTimes := retryTimes st + 1 |}
    end ;;
  pollSuspend maxRetries st'.

(** The timer of a call fires, if the call is still suspended. *)
Definition timerFires (maxRetries : nat) (reads : nat -> option (list byte))
    (fileName : string) (p : Polling) : M Polling :=
  match p with
  | Suspended st => pollResume maxRetries reads fileName st
  | Resolved _ | Rejected _ => ret p
  end.

(** [await] of one call while nothing else runs.  [fuel] bounds the number of
    timers; [S maxRetries] of them are never used up ([pollAwait_exits]). *)
Fixpoint pollAwait (fuel : nat) (maxRetries : nat)
    (reads : nat -> option (list byte)) (fileName : string) (p : Polling)
  : M (option (list byte)) :=
  match p with
  | Resolved bytes => ret bytes
  | Rejected err => throw err
  | Suspended st =>
      match fuel with
      | O => throw (Error "fs timeout")
      | S fuel' =>
          p' <- pollResume maxRetries reads fileName st ;;
          pollAwait fuel' maxRetries reads fileName p'
      end
  end.

(** [await Promise.all([a, b])] for two calls of the poller that were started
    together, [a] first.  Both set their timers for the same delays, so the
    timers fire in turns, the one of [a] before the one of [b].  The promise
    is rejected as soon as one of the two calls is, before any further timer
    fires, and it is resolved once both calls are.  A rejection does not
    cancel the other call: its pending timer fires later, which is a step of
    its own in a session ([timer_fires] below) and no part of the awaited
    promise.  [fuel] bounds the number of rounds; [S maxRetries] of them are
    never used up ([Promise_all2_exits]). *)
Fixpoint Promise_all2 (fuel : nat) (maxRetries : nat)
    (readsA : nat -> option (list byte)) (fileA : string)
    (readsB : nat -> option (list byte)) (fileB : string)
    (a b : Polling) : M (option (list byte) * option (list byte)) :=
  match a, b with
  | Rejected err, _ => throw err
  | _, Rejected err => throw err
  | Resolved bytesA, Resolved bytesB => ret (bytesA, bytesB)
  | _, _ =>
      match fuel with
      | O => throw (Error "fs timeout")
      | S fuel' =>
          a' <- timerFires maxRetries readsA fileA a ;;
          match a' with
          | Rejected err => throw err
          | _ =>
              b' <- timerFires maxRetries readsB fileB b ;;
              Promise_all2 fuel' maxRetries readsA fileA readsB fileB a' b'
          end
      end
  end.

(** [obj[key]] on a flat object. *)
Fixpoint property (config : list (string * Scalar)) (key : string) : option Scalar :=
  match config with
  | [] => None
  | (k, v) :: rest => if String.eqb k key then Some v else property rest key
  end.

Definition truthy_property (v : option Scalar) : bool :=
  match v with
  | Some s => truthy s
  | None => false
  end.

(** The value [saveState] resolves to. *)
Record SavedState : Type := {
  state : Blob;
  thumbnail : option Blob
}.

Definition octet_stream (buffer : option (list byte)) : Blob :=
  {| blobParts := buffer; type := "application/octet-stream" |}.

(** [saveState()]; [Return None] is the promise resolved with [undefined]. *)
Definition saveState (x : Externals) : M (option SavedState) :=
  clearStateFile x ;;
  handle <- get emscripten ;;
  match handle with
  | None => ret None
  | Some _ =>
      sendCommand SAVE_STATE ;;
      savestateThumbnailEnable <-
        get (fun e => property (retroarch (options e)) "savestate_thumbnail_enable") ;;
      buffers <-
        (if truthy_property savestateThumbnailEnable then
           p <- getter (stateFileName x) ;;
           a <- pollStart maxRetries ;;
           t <- getter (stateThumbnailFileName x) ;;
           b <- pollStart maxRetries ;;
           both <- Promise_all2 (S maxRetries) maxRetries
                     (FS_readFile_result x p) p (FS_readFile_result x t) t a b ;;
           ret (fst both, Some (snd both))
         else
           p <- getter (stateFileName x) ;;
           stateBuffer <- waitForEmscriptenFile x p ;;
           ret (stateBuffer, None)) ;;
      clearStateFile x ;;
      let state := octet_stream (fst buffers) in
      let thumbnail :=
        match snd buffers with
        | Some (Some stateThumbnailBuffer) =>
            Some (octet_stream (Some stateThumbnailBuffer))
        | Some None | None => None
        end in
      ret (Some {| state := state; thumbnail := thumbnail |})
  end.

(** [loadState(blob)]. *)
Definition loadState (x : Externals) (blob : Blob) : M unit :=
  clearStateFile x ;;
  handle <- get emscripten ;;
  match handle with
  | Some _ =>
      let buffer := blobToBuffer x blob in
      p <- getter (stateFileName x) ;;
      update (log_call (FS_writeFile p (Binary buffer))) ;;
      p' <- getter (stateFileName x) ;;
      waitForEmscriptenFile x p' ;;
      sendCommand LOAD_STATE
  | None => ret tt
  end.

(** *** [saveState] and [loadState] between their awaits

    Both methods are asynchronous.  While one of them waits, the program
    goes on polling its standard input and the host may call other methods.
    The definitions below are the stretches of the two bodies that run
    without interruption; the values they compute are left out, only what
    they do to the object is kept. *)

(** [saveState()] up to its await: the stale files are removed, the command
    is queued and the polls are started. *)
Definition saveState_start (x : Externals) : M unit :=
  clearStateFile x ;;
  handle <- get emscripten ;;
  match handle with
  | None => ret tt
  | Some _ =>
      sendCommand SAVE_STATE ;;
      savestateThumbnailEnable <-
        get (fun e => property (retroarch (options e)) "savestate_thumbnail_enable") ;;
      if truthy_property savestateThumbnailEnable then
        getter (stateFileName x) ;;
        pollStart maxRetries ;;
        getter (stateThumbnailFileName x) ;;
        pollStart maxRetries ;;
        ret tt
      else
        getter (stateFileName x) ;;
        pollStart maxRetries ;;
        ret tt
  end.

(** [saveState()] after its await, once the polls have resolved. *)
Definition saveState_finish (x : Externals) : M unit :=
  clearStateFile x.

(** [loadState(blob)] up to [await blobToBuffer(blob)]. *)
Definition loadState_start (x : Externals) : M unit :=
  clearStateFile x.

(** [loadState(blob)] from there to the await of the poll. *)
Definition loadState_write (x : Externals) (blob : Blob) : M unit :=
  let buffer := blobToBuffer x blob in
  p <- getter (stateFileName x) ;;
  update (log_call (FS_writeFile p (Binary buffer))) ;;
  getter (stateFileName x) ;;
  pollStart maxRetries ;;
  ret tt.

(** [loadState(blob)] after the poll has resolved. *)
Definition loadState_finish : M unit :=
  sendCommand LOAD_STATE.

(** ** Leaving and resizing *)

(** [cleanupDOM()]. *)
Definition cleanupDOM : M unit :=
  update (log_call element_remove).

(** [exit(statusCode = 0)].  [previousActiveElement] is never assigned, so
    the optional call on it does nothing. *)
Definition exit (statusCode : Z) : M unit :=
  update (set_processStatus (Some terminated)) ;;
  handle <- get emscripten ;;
  match handle with
  | Some _ =>
      update (log_call (emscripten_exit statusCode)) ;;
      update (log_call (FS_unmount "/home")) ;;
      update (log_call JSEvents_removeAllEventListeners)
  | None => ret tt
  end ;;
  cleanupDOM.

(** [resize(width, height)]. *)
Definition resize (width height : Z) : M unit :=
  destructure_emscripten ;;
  update (log_call (Module_setCanvasSize width height)).

(** ** The config serializer *)

(** The loop [for (const key in config) config[key] = `__${config[key]}__`]:
    the entries of the object after it. *)
Definition wrapValues (config : list (string * Scalar)) : list (string * string) :=
  List.map (fun kv => (fst kv, ("__" ++ ToString (snd kv) ++ "__")%string)) config.

(** [writeConfigFile({ path, config })].  The method overwrites the entries
    of the object it is given; the object as it is afterwards is returned so
    that the caller can keep it. *)
Definition writeConfigFile (x : Externals) (path : string)
    (config : list (string * Scalar)) : M (list (string * Scalar)) :=
  destructure_emscripten ;;
  let dir := slice path 0 (lastIndexOf path "/") in
  update (log_call (FS_mkdirTree dir)) ;;
  let config' := wrapValues config in
  let configContent := ini_stringify x config' in
  let configContent := replaceAll configContent "__" DQUOTE in
  update (log_call (FS_writeFile path (Text configContent))) ;;
  ret (List.map (fun kv => (fst kv, Str (snd kv))) config').

(** [setupRaConfigFile()]: the object passed is [this.options.retroarch]
    itself, so the wrapped values end up in the options. *)
Definition setupRaConfigFile (x : Externals) : M unit :=
  config <- get (fun e => retroarch (options e)) ;;
  config' <- writeConfigFile x raConfigPath config ;;
  update (fun e' =>
    set_options {| rom := rom (options e'); bios := bios (options e');
                   core := core (options e'); retroarch := config' |} e').

(** ** Driving the command channel *)

(** [n] successive calls of [stdin], with what each returned. *)
Fixpoint stdin_times (n : nat) : M (list (option byte)) :=
  match n with
  | O => ret []
  | S k =>
      b <- stdin ;;
      bs <- stdin_times k ;;
      ret (b :: bs)
  end.

(** The two operations of the channel: the host sends, the program polls. *)
Inductive ChannelOp : Type :=
| Send (msg : RetroArchCommand)
| Poll.

(** Runs a sequence of channel operations; the bytes the polls delivered are
    returned in order. *)
Fixpoint runChannel (ops : list ChannelOp) : M (list byte) :=
  match ops with
  | [] => ret []
  | Send msg :: rest => sendCommand msg ;; runChannel rest
  | Poll :: rest =>
      b <- stdin ;;
      bs <- runChannel rest ;;
      ret (match b with Some v => v :: bs | None => bs end)
  end.

(** The commands a sequence of operations sends, in order. *)
Fixpoint sent (ops : list ChannelOp) : list RetroArchCommand :=
  match ops with
  | [] => []
  | Send msg :: rest => msg :: sent rest
  | Poll :: rest => sent rest
  end.

(** The bytes of a pending command that has not been read yet. *)
Definition unread (m : list byte * nat) : list byte := skipn (snd m) (fst m).

(** The bytes still to be delivered by a queue. *)
Definition pending (q : list (list byte * nat)) : list byte :=
  List.concat (List.map unread q).

(** A pending command nobody has started to read. *)
Definition untouched (m : list byte * nat) : Prop := snd m = 0.

(** Only the front of the queue may be partially consumed. *)
Definition frontOnly (q : list (list byte * nat)) : Prop :=
  match q with
  | [] => True
  | _ :: rest => Forall untouched rest
  end.

(** The bytes of a command on the wire. *)
Definition wire (msg : RetroArchCommand) : list byte :=
  encoder_encode (commandName msg ++ LF)%string.

(** ** Concrete inputs used by the examples *)

Definition pong_options : Options :=
  {| rom := [{| fileName := "pong1k.nes"; fileContent := [] |}];
     bios := [];
     core := {| name := "fceumm"; js := ""; wasm := [] |};
     retroarch := [("a", Bool true); ("b", Num "4"); ("c", Str "x")] |}.

(** The reading of [ini.stringify] that the examples use: one line
    [key = value] per entry. *)
Definition ini_lines (config : list (string * string)) : string :=
  String.concat ""
    (List.map (fun kv => (fst kv ++ " = " ++ snd kv ++ LF)%string) config).

(** An outside world in which the state files never appear. *)
Definition silent_world : Externals :=
  {| coreFullNameMap :=
       fun n => if String.eqb n "fceumm" then Some "FCEUmm" else None;
     blobToBuffer :=
       fun b => match blobParts b with Some l => l | None => [] end;
     ini_stringify := ini_lines;
     FS_unlink_throws := fun _ _ => true;
     FS_readFile_result := fun _ _ => None |}.

(** A launched emulator: the module is instantiated and the game runs. *)
Definition launched (o : Options) : Emulator :=
  set_gameStatus running (set_emscripten (Some EmscriptenHandle) (constructor o)).

(** ** Vocabulary of the properties *)

(** The queue entry of one PAUSE_TOGGLE command. *)
Definition toggle : list byte * nat := (wire PAUSE_TOGGLE, 0).

Definition add_calls (cs : list Call) (e : Emulator) : Emulator :=
  {| options := options e; emscripten := emscripten e;
     messageQueue := messageQueue e; gameStatus := gameStatus e;
     processStatus := processStatus e; calls := calls e ++ cs |}.

(** The calls of the read attempt number [k]: the wait, the read and, when
    the read raises, the warning. *)
Definition attemptCalls (reads : nat -> option (list byte)) (fileName : string)
    (k : nat) : list Call :=
  delay (delayTime k) :: FS_readFile fileName ::
  match reads k with
  | Some _ => []
  | None => [console_warn]
  end.

(** The calls of the [n] read attempts that start with attempt [k]. *)
Definition pollCalls (reads : nat -> option (list byte)) (fileName : string)
    (k n : nat) : list Call :=
  flat_map (attemptCalls reads fileName) (seq k n).

(** The number of [FS.readFile] calls in a log. *)
Definition readAttempts (cs : list Call) : nat :=
  List.length
    (List.filter (fun c => match c with FS_readFile _ => true | _ => false end) cs).

(** The last read that succeeded before attempt [k]. *)
Fixpoint lastRead (reads : nat -> option (list byte)) (k : nat) : option (list byte) :=
  match k with
  | O => None
  | S j =>
      match reads j with
      | Some b => Some b
      | None => lastRead reads j
      end
  end.

(** Attempt [k] succeeds with the same non-zero length as the successful read
    before it. *)
Definition stableAt (reads : nat -> option (list byte)) (k : nat) : bool :=
  match reads k with
  | Some newBuffer => sameNonEmptyLength (lastRead reads k) newBuffer
  | None => false
  end.

(** The locals after the turn of the loop that makes attempt [retryTimes st]. *)
Definition nextState (reads : nat -> option (list byte)) (st : PollState) : PollState :=
  match reads (retryTimes st) with
  | Some newBuffer =>
      {| buffer := Some newBuffer;
         isFinished := sameNonEmptyLength (buffer st) newBuffer;
         retryTimes := retryTimes st + 1 |}
  | None =>
      {| buffer := buffer st;
         isFinished := isFinished st;
         retryTimes := retryTimes st + 1 |}
  end.

(** A read source that always raises. *)
Definition never_there : nat -> option (list byte) := fun _ => None.

(** A state file that is being written: 2 bytes at first, 4 bytes from the
    third read on, with one read that raises. *)
Definition growing_file (k : nat) : option (list byte) :=
  match k with
  | 0 => Some [Byte.x01; Byte.x02]
  | 1 => None
  | 2 => Some [Byte.x01; Byte.x02; Byte.x03; Byte.x04]
  | _ => Some [Byte.x01; Byte.x02; Byte.x03; Byte.x05]
  end.

(** A state file of two bytes that is read, then found missing, then read
    again: no two reads in a row succeed. *)
Definition interrupted_file (k : nat) : option (list byte) :=
  match k with
  | 0 => Some [Byte.x09; Byte.x09]
  | 2 => Some [Byte.x09; Byte.x09]
  | _ => None
  end.

(** The operations the class offers to the host after launch. *)
Inductive Operation : Type :=
| call_pause
| call_resume
| call_restart
| call_saveState
| call_loadState (blob : Blob)
| call_resize (width height : Z)
| call_sendCommand (msg : RetroArchCommand).

(** Calling an operation; the value is what [saveState] resolves to and
    [None] ([undefined]) for the others. *)
Definition perform (x : Externals) (op : Operation) : M (option SavedState) :=
  match op with
  | call_pause => pause ;; ret None
  | call_resume => resume ;; ret None
  | call_restart => restart ;; ret None
  | call_saveState => saveState x
  | call_loadState blob => loadState x blob ;; ret None
  | call_resize width height => resize width height ;; ret None
  | call_sendCommand msg => sendCommand msg ;; ret None
  end.

(** A method frames [processStatus]: it neither reads nor writes the field. *)
Definition frames {A} (m : M A) : Prop :=
  forall p e,
    m (set_processStatus p e) = (fst (m e), set_processStatus p (snd (m e))).

(** A method whose promise never resolves to [undefined]. *)
Definition never_undefined {A} (m : M (option A)) : Prop :=
  forall e, outcome m e <> Return None.

(** Characters that an INI writer copies as they are: letters, digits,
    underscore, hyphen, dot and slash. *)
Definition plainChar (c : ascii) : bool :=
  let n := nat_of_ascii c in
  ((48 <=? n) && (n <=? 57)) || ((65 <=? n) && (n <=? 90)) ||
  ((97 <=? n) && (n <=? 122)) || (n =? 95) || (n =? 45) || (n =? 46) || (n =? 47).

Fixpoint ini_plain (s : string) : bool :=
  match s with
  | EmptyString => true
  | String c rest => plainChar c && ini_plain rest
  end.

(** A key that the serializer renders as it is. *)
Definition plainKey (k : string) : bool :=
  ini_plain k && negb (includes k "__").

(** A value that the serializer renders between quotes as it is. *)
Definition quotable (v : string) : bool :=
  ini_plain v && negb (includes v "__") && negb (endsWith v "_").

(** The line expected for an entry: key, equals sign, quoted value. *)
Definition quotedLine (kv : string * Scalar) : string :=
  (fst kv ++ " = " ++ DQUOTE ++ ToString (snd kv) ++ DQUOTE ++ LF)%string.

(** The entries for which the serializer is shown to quote faithfully. *)
Definition plainEntry (kv : string * Scalar) : Prop :=
  plainKey (fst kv) = true /\ quotable (ToString (snd kv)) = true.

(** The three buttons of the pause state machine. *)
Inductive PauseOp : Type :=
| press_pause
| press_resume
| press_restart.

Definition press (op : PauseOp) : M unit :=
  match op with
  | press_pause => pause
  | press_resume => resume
  | press_restart => restart
  end.

(** Pressing buttons one after the other. *)
Fixpoint runPause (ops : list PauseOp) : M unit :=
  match ops with
  | [] => ret tt
  | op :: rest => press op ;; runPause rest
  end.

(** Whether a queue entry carries the PAUSE_TOGGLE command. *)
Definition isToggle (m : list byte * nat) : bool :=
  if list_eq_dec Byte.byte_eq_dec (fst m) (wire PAUSE_TOGGLE) then true else false.

(** The number of PAUSE_TOGGLE commands among queue entries. *)
Definition pauseToggles (q : list (list byte * nat)) : nat :=
  List.length (List.filter isToggle q).

Definition sameStatus (a b : GameStatus) : bool :=
  match a, b with
  | initial, initial | paused, paused | running, running => true
  | _, _ => false
  end.

(** The error of destructuring the first element of an empty [rom] array. *)
Definition no_rom_error : Exception :=
  TypeError "Cannot destructure property 'fileName' of undefined".

(** The time spent in [delay] according to a log. *)
Fixpoint totalDelay (cs : list Call) : Z :=
  match cs with
  | [] => 0
  | delay time :: rest => time + totalDelay rest
  | _ :: rest => totalDelay rest
  end.

(** A call that removes a file. *)
Definition isUnlink (c : Call) : Prop :=
  match c with
  | FS_unlink _ => True
  | _ => False
  end.

(** An outside world in which every file read has the same two bytes and
    every removal succeeds. *)
Definition steady_world : Externals :=
  {| coreFullNameMap :=
       fun n => if String.eqb n "fceumm" then Some "FCEUmm" else None;
     blobToBuffer :=
       fun b => match blobParts b with Some l => l | None => [] end;
     ini_stringify := ini_lines;
     FS_unlink_throws := fun _ _ => false;
     FS_readFile_result := fun _ _ => Some [Byte.x01; Byte.x02] |}.

(** The options of the examples with the thumbnail switch set. *)
Definition thumbnail_options (enable : bool) : Options :=
  {| rom := [{| fileName := "pong1k.nes"; fileContent := [] |}];
     bios := [];
     core := {| name := "fceumm"; js := ""; wasm := [] |};
     retroarch := [("savestate_thumbnail_enable", Bool enable)] |}.

(** A method keeps a field of the object: the field is the same afterwards,
    however the method ends. *)
Definition keeps {B} (field : Emulator -> B) {A} (m : M A) : Prop :=
  forall e, field (snd (m e)) = field e.

(** A method only appends fresh commands to the queue. *)
Definition appends {A} (m : M A) : Prop :=
  forall e,
    exists cmds,
      messageQueue (snd (m e)) =
        messageQueue e ++ List.map (fun c => (wire c, 0)) cmds.

(** What happens to the object during a session, one uninterrupted stretch
    at a time.  The host calls a method and the call runs to its end (for the
    asynchronous [saveState] and [loadState] this is the case in which
    nothing else runs while they wait), the host calls [exit], or the program
    polls its standard input.  Or one stretch of an asynchronous call runs:
    [saveState] or [loadState] up to an await or after one, or the timer of a
    suspended poll of [fileName] fires, [st] being the locals of that poll. *)
Inductive SessionStep : Type :=
| host_calls (op : Operation)
| host_exits (statusCode : Z)
| program_polls
| saveState_starts
| saveState_finishes
| loadState_starts
| loadState_writes (blob : Blob)
| loadState_finishes
| timer_fires (fileName : string) (st : PollState).

(** The object after one step; an exception thrown by a call is left to the
    host, the object stays as the call left it. *)
Definition sessionStep (x : Externals) (s : SessionStep) (e : Emulator) : Emulator :=
  match s with
  | host_calls op => after (perform x op) e
  | host_exits statusCode => after (exit statusCode) e
  | program_polls => after stdin e
  | saveState_starts => after (saveState_start x) e
  | saveState_finishes => after (saveState_finish x) e
  | loadState_starts => after (loadState_start x) e
  | loadState_writes blob => after (loadState_write x blob) e
  | loadState_finishes => after loadState_finish e
  | timer_fires fileName st =>
      after (pollResume maxRetries (FS_readFile_result x fileName) fileName st) e
  end.

(** A session is any sequence of steps.  The sequences that the event loop
    can produce, in which the stretches of a call come in the order of its
    body while polls and other calls fall between them, are among them. *)
Fixpoint runSession (x : Externals) (steps : list SessionStep) (e : Emulator) : Emulator :=
  match steps with
  | [] => e
  | s :: rest => runSession x rest (sessionStep x s e)
  end.

(** The index of a pending command is within its bytes. *)
Definition inBounds (m : list byte * nat) : Prop := snd m <= List.length (fst m).

(** The invariant of the queue: only the front entry may be partially read,
    every index is within its bytes, and every entry carries a command. *)
Definition queueInvariant (q : list (list byte * nat)) : Prop :=
  frontOnly q /\
  Forall inBounds q /\
  Forall (fun m => exists c, fst m = wire c) q.

(** The ten characters of the class that the facade replaces in a file
    name, by their codes: double quote, percent, asterisk, slash, colon,
    less-than, greater-than, question mark, backslash and vertical bar. *)
Definition illegalInFileName (c : ascii) : bool :=
  let n := nat_of_ascii c in
  (n =? 34) || (n =? 37) || (n =? 42) || (n =? 47) || (n =? 58) ||
  (n =? 60) || (n =? 62) || (n =? 63) || (n =? 92) || (n =? 124).

(** [fileName.replaceAll(/[...]/g, '-')] for that class. *)
Fixpoint replaceIllegal (fileName : string) : string :=
  match fileName with
  | EmptyString => EmptyString
  | String c rest =>
      String (if illegalInFileName c then "-"%char else c) (replaceIllegal rest)
  end.

(** The last statement of [resolveFile] in the facade:
    [fileName ? fileName.replaceAll(..., '-') : 'rom.bin']. *)
Definition resolveFile_fileName (fileName : string) : string :=
  if String.eqb fileName "" then "rom.bin" else replaceIllegal fileName.

(** An outside world in which state files are stable and thumbnails never
    appear. *)
Definition no_thumbnail_world : Externals :=
  {| coreFullNameMap :=
       fun n => if String.eqb n "fceumm" then Some "FCEUmm" else None;
     blobToBuffer :=
       fun b => match blobParts b with Some l => l | None => [] end;
     ini_stringify := ini_lines;
     FS_unlink_throws := fun _ _ => false;
     FS_readFile_result :=
       fun path _ =>
         if endsWith path ".png" then None else Some [Byte.x01; Byte.x02] |}.

(** The locals with which the poller starts. *)
Definition pollInitial : PollState :=
  {| buffer := None; isFinished := false; retryTimes := 0 |}.

(** What [pollSuspend] returns for the locals [st]. *)
Definition pollNext (maxRetries : nat) (st : PollState) : Polling :=
  if pollAgain maxRetries st then Suspended st
  else if negb (isFinished st) then Rejected (Error "fs timeout")
  else Resolved (buffer st).

(** A call of the poller once its timer has fired. *)
Definition afterTimer (maxRetries : nat) (reads : nat -> option (list byte))
    (p : Polling) : Polling :=
  match p with
  | Suspended st => pollNext maxRetries (nextState reads st)
  | Resolved _ | Rejected _ => p
  end.

(** The calls made when the timer of a call of the poller fires: the read,
    the warning when the read raises, and the next timer when there is one. *)
Definition timerCalls (maxRetries : nat) (reads : nat -> option (list byte))
    (fileName : string) (p : Polling) : list Call :=
  match p with
  | Suspended st =>
      FS_readFile fileName ::
      match reads (retryTimes st) with
      | Some _ => []
      | None => [console_warn]
      end ++
      (if pollAgain maxRetries (nextState reads st)
       then [delay (delayTime (retryTimes (nextState reads st)))]
       else [])
  | Resolved _ | Rejected _ => []
  end.

(** How a call of the poller ends when its timers are left to fire. *)
Fixpoint settlesTo (fuel : nat) (maxRetries : nat)
    (reads : nat -> option (list byte)) (p : Polling)
  : Completion (option (list byte)) :=
  match p with
  | Resolved bytes => Return bytes
  | Rejected err => Throw err
  | Suspended st =>
      match fuel with
      | O => Throw (Error "fs timeout")
      | S fuel' => settlesTo fuel' maxRetries reads (afterTimer maxRetries reads p)
      end
  end.

(** Both calls resolved, or a timeout. *)
Definition bothSettle (a b : Completion (option (list byte)))
  : Completion (option (list byte) * option (list byte)) :=
  match a, b with
  | Return bytesA, Return bytesB => Return (bytesA, bytesB)
  | _, _ => Throw (Error "fs timeout")
  end.

(** A call of the poller that, if it is rejected, is so by the timeout. *)
Definition timeoutOnly (p : Polling) : Prop :=
  match p with
  | Rejected err => err = Error "fs timeout"
  | Suspended _ | Resolved _ => True
  end.

(** A bound on the timers a call of the poller still needs. *)
Definition timersLeft (maxRetries : nat) (p : Polling) : nat :=
  match p with
  | Suspended st => S (maxRetries - retryTimes st)
  | Resolved _ | Rejected _ => 0
  end.

(** * Properties *)

(** ** Command channel *)

Lemma bind_run {A B} (m : M A) (k : A -> M B) (e : Emulator) :
  bind m k e =
  match m e with
  | (Return a, e') => k a e'
  | (Throw x, e') => (Throw x, e')
  end.
Proof. reflexivity. Qed.

Lemma sendCommand_run (msg : RetroArchCommand) (e : Emulator) :
  sendCommand msg e =
  (Return tt, set_messageQueue (messageQueue e ++ [(wire msg, 0)]) e).
Proof. reflexivity. Qed.

Lemma stdin_run (e : Emulator) :
  stdin e =
  (Return (fst (stdin_loop (messageQueue e))),
   set_messageQueue (snd (stdin_loop (messageQueue e))) e).
Proof.
  unfold stdin, bind, get, update, ret.
  destruct (stdin_loop (messageQueue e)) as [b q]. reflexivity.
Qed.

Lemma skipn_nth_error {A} (l : list A) (i : nat) (a : A) :
  nth_error l i = Some a -> skipn i l = a :: skipn (S i) l.
Proof.
  revert i. induction l as [|h t IH]; intros [|i] H; simpl in *; try discriminate.
  - congruence.
  - now apply IH.
Qed.

Lemma pending_cons (m : list byte * nat) (q : list (list byte * nat)) :
  pending (m :: q) = unread m ++ pending q.
Proof. reflexivity. Qed.

Lemma stdin_loop_pending (q : list (list byte * nat)) :
  match fst (stdin_loop q) with
  | Some b => pending q = b :: pending (snd (stdin_loop q))
  | None => pending q = [] /\ snd (stdin_loop q) = []
  end.
Proof.
  induction q as [|[msg index] rest IH].
  - simpl. split; reflexivity.
  - rewrite pending_cons. unfold unread.
    cbn [stdin_loop fst snd].
    destruct (Nat.leb_spec (List.length msg) index) as [Hle|Hlt].
    + rewrite skipn_all2 by exact Hle. exact IH.
    + cbn [fst snd]. destruct (nth_error msg index) as [b|] eqn:Hb.
      * rewrite pending_cons. unfold unread. cbn [fst snd].
        rewrite (skipn_nth_error _ _ Hb), Nat.add_1_r. reflexivity.
      * apply nth_error_None in Hb. lia.
Qed.

Lemma stdin_loop_untouched (q : list (list byte * nat)) :
  Forall untouched q -> frontOnly (snd (stdin_loop q)).
Proof.
  induction q as [|[msg index] rest IH]; intros H; simpl.
  - exact I.
  - inversion H as [|? ? _ Hrest]; subst.
    destruct (List.length msg <=? index)%nat; simpl; auto.
Qed.

Lemma stdin_loop_frontOnly (q : list (list byte * nat)) :
  frontOnly q -> frontOnly (snd (stdin_loop q)).
Proof.
  destruct q as [|[msg index] rest]; intros H; simpl.
  - exact I.
  - destruct (List.length msg <=? index)%nat; simpl.
    + now apply stdin_loop_untouched.
    + exact H.
Qed.

Lemma push_frontOnly (q : list (list byte * nat)) (bytes : list byte) :
  frontOnly q -> frontOnly (q ++ [(bytes, 0)]).
Proof.
  destruct q as [|m rest]; intros H; simpl.
  - constructor.
  - apply Forall_app. split; [exact H|]. repeat constructor.
Qed.

(** Polling only ever drops commands from the front of the queue. *)
Lemma stdin_loop_suffix (q : list (list byte * nat)) :
  exists gone, List.map fst q = gone ++ List.map fst (snd (stdin_loop q)).
Proof.
  induction q as [|[msg index] rest IH]; simpl.
  - exists []. reflexivity.
  - destruct (List.length msg <=? index)%nat; simpl.
    + destruct IH as [gone Hg]. exists (msg :: gone). simpl. now rewrite Hg.
    + exists []. reflexivity.
Qed.

Lemma pending_app (q1 q2 : list (list byte * nat)) :
  pending (q1 ++ q2) = pending q1 ++ pending q2.
Proof. unfold pending. now rewrite List.map_app, List.concat_app. Qed.

(** The channel invariant and the byte accounting, from any queue that
    satisfies the invariant. *)
Lemma runChannel_spec (ops : list ChannelOp) :
  forall e,
    frontOnly (messageQueue e) ->
    exists delivered e',
      runChannel ops e = (Return delivered, e') /\
      frontOnly (messageQueue e') /\
      delivered ++ pending (messageQueue e') =
        pending (messageQueue e) ++ List.concat (List.map wire (sent ops)) /\
      exists gone,
        List.map fst (messageQueue e) ++ List.map wire (sent ops) =
          gone ++ List.map fst (messageQueue e').
Proof.
  induction ops as [|op ops IH]; intros e Hinv.
  - exists [], e. simpl. rewrite !app_nil_r. repeat split; auto.
    exists []. reflexivity.
  - destruct op as [msg|].
    + simpl runChannel. rewrite bind_run, sendCommand_run.
      set (e1 := set_messageQueue (messageQueue e ++ [(wire msg, 0)]) e).
      destruct (IH e1) as (delivered & e' & Hrun & Hinv' & Hbytes & gone & Hgone).
      { apply push_frontOnly. exact Hinv. }
      exists delivered, e'. repeat split; auto.
      * rewrite Hbytes. simpl. rewrite pending_app.
        unfold pending at 2. simpl. unfold unread. simpl.
        rewrite app_nil_r. now rewrite <- app_assoc.
      * exists gone. rewrite <- Hgone. simpl. rewrite List.map_app. simpl.
        now rewrite <- app_assoc.
    + simpl runChannel. rewrite bind_run, stdin_run.
      set (q := messageQueue e) in *.
      set (e1 := set_messageQueue (snd (stdin_loop q)) e).
      destruct (IH e1) as (delivered & e' & Hrun & Hinv' & Hbytes & gone & Hgone).
      { apply stdin_loop_frontOnly. exact Hinv. }
      rewrite bind_run, Hrun. simpl in Hbytes, Hgone.
      pose proof (stdin_loop_pending q) as Hp.
      destruct (stdin_loop_suffix q) as [gone0 Hg0].
      destruct (fst (stdin_loop q)) as [b|].
      * exists (b :: delivered), e'. repeat split; auto.
        -- simpl. rewrite Hbytes, Hp. reflexivity.
        -- exists (gone0 ++ gone). simpl. rewrite Hg0, <- !app_assoc.
           now rewrite Hgone.
      * exists delivered, e'. repeat split; auto.
        -- destruct Hp as [Hp Hq]. rewrite Hbytes, Hp, Hq. reflexivity.
        -- exists (gone0 ++ gone). simpl. rewrite Hg0, <- !app_assoc.
           now rewrite Hgone.
Qed.

(** C8.  Queue invariant of the command channel.  Start from an emulator
    whose queue is empty and run any sequence of [sendCommand] and [stdin]
    calls.  Then no call throws, and in the queue that results
    - every pending command behind the front one still has its index at 0, so
      at most the front command is partially consumed;
    - the bytes delivered so far, followed by the unread bytes of the queue
      from front to back, are exactly the bytes of the commands sent, in the
      order they were sent;
    - the commands still queued are the last ones sent, in sending order: only
      whole commands at the front have gone. *)
Theorem channel_front_only_fifo (ops : list ChannelOp) (e : Emulator) :
  messageQueue e = [] ->
  exists delivered e',
    runChannel ops e = (Return delivered, e') /\
    (forall i m, nth_error (messageQueue e') (S i) = Some m -> snd m = 0) /\
    delivered ++ pending (messageQueue e') =
      List.concat (List.map wire (sent ops)) /\
    exists gone,
      List.map wire (sent ops) = gone ++ List.map fst (messageQueue e').
Proof.
  intros Hq.
  destruct (@runChannel_spec ops e) as (delivered & e' & Hrun & Hinv & Hbytes & gone & Hgone).
  { rewrite Hq. exact I. }
  rewrite Hq in Hbytes, Hgone. simpl in Hbytes, Hgone.
  exists delivered, e'. repeat split; auto.
  - intros i m Hm. destruct (messageQueue e') as [|front rest]; [discriminate|].
    simpl in Hinv, Hm. apply nth_error_In in Hm.
    rewrite Forall_forall in Hinv. exact (Hinv m Hm).
  - exists gone. exact Hgone.
Qed.

Lemma channel_front_only_fifo_witness :
  exists delivered e',
    runChannel [Send PAUSE_TOGGLE; Poll; Send RESET; Poll] (constructor pong_options)
      = (Return delivered, e') /\
    (forall i m, nth_error (messageQueue e') (S i) = Some m -> snd m = 0) /\
    delivered ++ pending (messageQueue e') =
      List.concat (List.map wire (sent [Send PAUSE_TOGGLE; Poll; Send RESET; Poll])) /\
    exists gone,
      List.map wire (sent [Send PAUSE_TOGGLE; Poll; Send RESET; Poll])
        = gone ++ List.map fst (messageQueue e').
Proof.
  apply (@channel_front_only_fifo [Send PAUSE_TOGGLE; Poll; Send RESET; Poll]
           (constructor pong_options)).
  reflexivity.
Defined.

(** Polling a queue that holds one command read up to [i]: the unread bytes
    come out in order, then [null], and the queue is empty. *)
Lemma stdin_times_single (bytes : list byte) :
  forall d i e,
    d = List.length bytes - i ->
    i <= List.length bytes ->
    messageQueue e = [(bytes, i)] ->
    stdin_times (d + 1) e =
      (Return (List.map Some (skipn i bytes) ++ [None]), set_messageQueue [] e).
Proof.
  induction d as [|d IH]; intros i e Hd Hi Hq.
  - cbn [stdin_times Nat.add]. rewrite bind_run, stdin_run, Hq.
    cbn [stdin_loop]. replace (List.length bytes <=? i) with true
      by (symmetry; apply Nat.leb_le; lia).
    rewrite skipn_all2 by lia. reflexivity.
  - cbn [stdin_times Nat.add]. rewrite bind_run, stdin_run, Hq.
    cbn [stdin_loop]. replace (List.length bytes <=? i) with false
      by (symmetry; apply Nat.leb_gt; lia).
    cbn [fst snd].
    destruct (nth_error bytes i) as [b|] eqn:Hb;
      [|apply nth_error_None in Hb; lia].
    rewrite bind_run.
    rewrite (IH (i + 1) (set_messageQueue [(bytes, i + 1)] e)); try reflexivity; try lia.
    rewrite (skipn_nth_error _ _ Hb), Nat.add_1_r. reflexivity.
Qed.

(** Every command sent on an empty queue is polled byte by byte, in order,
    and followed by [null]. *)
Lemma sent_command_is_polled_in_order (msg : RetroArchCommand) (e : Emulator) :
  messageQueue e = [] ->
  outcome (sendCommand msg ;; stdin_times (List.length (wire msg) + 1)) e =
    Return (List.map Some (wire msg) ++ [None]).
Proof.
  intros Hq. unfold outcome. rewrite bind_run, sendCommand_run, Hq.
  cbn [app].
  rewrite (@stdin_times_single (wire msg) (List.length (wire msg)) 0); try reflexivity; lia.
Qed.

(** C1 (amended).  On an empty queue, [sendCommand('PAUSE_TOGGLE')] queues
    the 13 bytes of PAUSE_TOGGLE followed by a line feed; the next 13 calls of
    [stdin] return these bytes in order (P, A, U first, then S and so on), the
    14th call returns [null], and the queue is empty again. *)
Theorem pause_toggle_is_polled_in_order (e : Emulator) :
  messageQueue e = [] ->
  wire PAUSE_TOGGLE = encoder_encode "PAUSE_TOGGLE" ++ [Byte.x0a] /\
  List.length (wire PAUSE_TOGGLE) = 13 /\
  firstn 3 (wire PAUSE_TOGGLE) = encoder_encode "PAU" /\
  outcome (sendCommand PAUSE_TOGGLE ;; stdin_times 14) e =
    Return (List.map Some (wire PAUSE_TOGGLE) ++ [None]) /\
  messageQueue (after (sendCommand PAUSE_TOGGLE ;; stdin_times 14) e) = [].
Proof.
  intros Hq. repeat split; try reflexivity.
  - unfold outcome. rewrite bind_run, sendCommand_run, Hq. reflexivity.
  - unfold after. rewrite bind_run, sendCommand_run, Hq. reflexivity.
Qed.

Lemma pause_toggle_is_polled_in_order_witness :
  wire PAUSE_TOGGLE = encoder_encode "PAUSE_TOGGLE" ++ [Byte.x0a] /\
  List.length (wire PAUSE_TOGGLE) = 13 /\
  firstn 3 (wire PAUSE_TOGGLE) = encoder_encode "PAU" /\
  outcome (sendCommand PAUSE_TOGGLE ;; stdin_times 14) (constructor pong_options) =
    Return (List.map Some (wire PAUSE_TOGGLE) ++ [None]) /\
  messageQueue (after (sendCommand PAUSE_TOGGLE ;; stdin_times 14)
                  (constructor pong_options)) = [].
Proof.
  apply (pause_toggle_is_polled_in_order (constructor pong_options)).
  reflexivity.
Defined.

(** C1 as stated fails: the command on the wire has 13 bytes, not 15, and it
    is not the case that 15 polls after [sendCommand('PAUSE_TOGGLE')] each
    return a byte. *)
Lemma pause_toggle_has_no_15_bytes :
  List.length (wire PAUSE_TOGGLE) = 13 /\
  ~ exists bytes : list byte,
      List.length bytes = 15 /\
      outcome (sendCommand PAUSE_TOGGLE ;; stdin_times 15) (constructor pong_options)
        = Return (List.map Some bytes).
Proof.
  split; [reflexivity|].
  intros [bytes [Hlen H]].
  vm_compute in H.
  do 14 (destruct bytes as [|? bytes]; [discriminate Hlen|]).
  discriminate H.
Qed.

(** ** Pause and resume *)

(** C4.  [pause()] queues PAUSE_TOGGLE exactly when the status is 'running'
    and leaves the status 'paused'; [resume()] queues it exactly when the
    status is 'paused' and leaves the status 'running'.  Hence a [pause()]
    made while already paused sends nothing, a second [pause()] right after a
    first one changes nothing at all (a running game is toggled once by the
    pair), and whenever either call queues the toggle the status moves from
    or to 'running'.  [restart()], the only other sender, queues RESET and
    then behaves as [resume()]. *)
Theorem pause_toggles_only_on_change (e : Emulator) :
  outcome pause e = Return tt /\
  outcome resume e = Return tt /\
  gameStatus (after pause e) = paused /\
  gameStatus (after resume e) = running /\
  messageQueue (after pause e) =
    messageQueue e ++
    match gameStatus e with running => [toggle] | paused | initial => [] end /\
  messageQueue (after resume e) =
    messageQueue e ++
    match gameStatus e with paused => [toggle] | running | initial => [] end /\
  after (pause ;; pause) e = after pause e /\
  messageQueue (after (pause ;; pause) e) =
    messageQueue e ++
    match gameStatus e with running => [toggle] | paused | initial => [] end /\
  gameStatus (after restart e) = running /\
  messageQueue (after restart e) =
    messageQueue e ++ [(wire RESET, 0)] ++
    match gameStatus e with paused => [toggle] | running | initial => [] end.
Proof.
  unfold outcome, after, restart, pause, resume, bind, get, update, ret.
  destruct e as [o m q g p c].
  destruct g; simpl; rewrite <- ?app_assoc, ?app_nil_r; repeat split; reflexivity.
Qed.

(** ** Canonical paths *)

Lemma lastIndexOf_from_absent (search s : string) (i acc : Z) :
  includes s search = false -> lastIndexOf_from search s i acc = acc.
Proof.
  revert i acc. induction s as [|c rest IH]; intros i acc H; simpl in *.
  - apply orb_false_iff in H. destruct H as [H _]. now rewrite H.
  - apply orb_false_iff in H. destruct H as [H1 H2].
    rewrite IH by exact H2. now rewrite H1.
Qed.

Lemma substring_prefix (base rest : string) :
  String.substring 0 (String.length base) (base ++ rest)%string = base.
Proof.
  induction base as [|c base IH]; simpl.
  - destruct rest; reflexivity.
  - now rewrite IH.
Qed.

Lemma length_append (s t : string) :
  String.length (s ++ t)%string = String.length s + String.length t.
Proof. induction s as [|c s IH]; simpl; [reflexivity|now rewrite IH]. Qed.

(** [slice(0, -1)] drops the last character. *)
Lemma slice_drop_last (base : string) (c : ascii) :
  slice (base ++ String c EmptyString)%string 0 (-1) = base.
Proof.
  unfold slice, clampIndex. rewrite length_append. simpl String.length.
  replace (0 <? 0)%Z with false by reflexivity.
  replace (-1 <? 0)%Z with true by reflexivity.
  rewrite Z.min_l by lia.
  rewrite Z.max_l by lia.
  rewrite Z.sub_0_r, Z.max_l by lia.
  replace (Z.of_nat (String.length base + 1) + -1)%Z
    with (Z.of_nat (String.length base)) by lia.
  rewrite Nat2Z.id. simpl Z.to_nat. apply substring_prefix.
Qed.

Lemma prefix_dot (rest : string) : String.prefix "." (String "." rest) = true.
Proof. destruct rest; reflexivity. Qed.

Lemma lastIndexOf_from_last_dot (base ext : string) :
  includes ext "." = false ->
  forall i acc,
    lastIndexOf_from "." (base ++ String "." ext) i acc =
      (i + Z.of_nat (String.length base))%Z.
Proof.
  intros Hext. induction base as [|c base IH]; intros i acc.
  - cbn [append lastIndexOf_from String.length]. rewrite prefix_dot.
    rewrite lastIndexOf_from_absent by exact Hext. cbn. lia.
  - cbn [append lastIndexOf_from String.length]. rewrite IH. lia.
Qed.

Lemma slice_prefix (base rest : string) :
  slice (base ++ rest) 0 (Z.of_nat (String.length base)) = base.
Proof.
  unfold slice, clampIndex. rewrite length_append.
  replace (0 <? 0)%Z with false by reflexivity.
  replace (Z.of_nat (String.length base) <? 0)%Z with false
    by (symmetry; apply Z.ltb_ge; lia).
  rewrite Z.min_l by lia. rewrite Z.min_l by lia.
  rewrite Z.sub_0_r, Z.max_l by lia.
  rewrite Nat2Z.id. cbn [Z.to_nat]. apply substring_prefix.
Qed.








(** C9.  When the first ROM's file name contains no dot, [lastIndexOf('.')]
    is -1 and the base name is the file name without its last character: for
    a file name [base] followed by one character [c], the state path ends in
    [base].state, not in the whole file name. *)
Theorem stateFileName_without_dot (x : Externals) (e : Emulator)
    (first : Asset) (rest : list Asset) (base : string) (c : ascii) :
  rom (options e) = first :: rest ->
  fileName first = (base ++ String c EmptyString)%string ->
  includes (fileName first) "." = false ->
  lastIndexOf (fileName first) "." = (-1)%Z /\
  stateFileName x e =
    Return (raUserdataDir ++ "states/"
              ++ interpolate (coreFullNameMap x (name (core (options e))))
              ++ "/" ++ base ++ ".state")%string.
Proof.
  intros Hrom Hname Hdot.
  assert (Hidx : lastIndexOf (fileName first) "." = (-1)%Z).
  { unfold lastIndexOf. now apply lastIndexOf_from_absent. }
  split; [exact Hidx|].
  unfold stateFileName. rewrite Hrom, Hidx, Hname, slice_drop_last.
  reflexivity.
Qed.

Lemma stateFileName_without_dot_witness :
  lastIndexOf "pong" "." = (-1)%Z /\
  stateFileName silent_world
    (constructor {| rom := [{| fileName := "pong"; fileContent := [] |}];
                    bios := [];
                    core := {| name := "fceumm"; js := ""; wasm := [] |};
                    retroarch := [] |}) =
    Return "/home/web_user/retroarch/userdata/states/FCEUmm/pon.state".
Proof.
  exact (@stateFileName_without_dot silent_world
           (constructor {| rom := [{| fileName := "pong"; fileContent := [] |}];
                           bios := [];
                           core := {| name := "fceumm"; js := ""; wasm := [] |};
                           retroarch := [] |})
           {| fileName := "pong"; fileContent := [] |} [] "pon" "g"%char
           eq_refl eq_refl eq_refl).
Defined.

(** ** The file poller *)

Lemma add_calls_nil (e : Emulator) : add_calls [] e = e.
Proof. destruct e. unfold add_calls. simpl. now rewrite app_nil_r. Qed.

Lemma add_calls_app (cs1 cs2 : list Call) (e : Emulator) :
  add_calls cs2 (add_calls cs1 e) = add_calls (cs1 ++ cs2) e.
Proof. unfold add_calls. simpl. now rewrite app_assoc. Qed.

Lemma pollOnce_run (reads : nat -> option (list byte)) (fileName : string)
    (st : PollState) (e : Emulator) :
  pollOnce reads fileName st e =
  (Return (nextState reads st),
   add_calls (attemptCalls reads fileName (retryTimes st)) e).
Proof.
  unfold pollOnce, nextState, attemptCalls, bind, update, ret, log_call, add_calls.
  destruct (reads (retryTimes st)); simpl; rewrite <- ?app_assoc; reflexivity.
Qed.

Lemma pollLoop_stop (fuel N : nat) (reads : nat -> option (list byte))
    (fileName : string) (st : PollState) (e : Emulator) :
  pollAgain N st = false -> pollLoop fuel N reads fileName st e = (Return st, e).
Proof. intros H. destruct fuel; simpl; rewrite H; reflexivity. Qed.

Lemma pollCalls_S (reads : nat -> option (list byte)) (fileName : string) (k n : nat) :
  pollCalls reads fileName k (S n) =
  attemptCalls reads fileName k ++ pollCalls reads fileName (S k) n.
Proof. reflexivity. Qed.

Lemma pollAgain_past (N : nat) (st : PollState) :
  retryTimes st = S N -> pollAgain N st = false.
Proof.
  intros H. unfold pollAgain. rewrite H.
  replace (S N <=? N) with false; [reflexivity|].
  symmetry. apply Nat.leb_gt. lia.
Qed.

Lemma pollAgain_go (N : nat) (st : PollState) :
  retryTimes st <= N -> isFinished st = false -> pollAgain N st = true.
Proof.
  intros H Hf. unfold pollAgain. rewrite Hf.
  replace (retryTimes st <=? N) with true; [reflexivity|].
  symmetry. apply Nat.leb_le. exact H.
Qed.

(** What the loop does from attempt [k] on, when it arrives there unfinished
    with the last successful read in [buffer]. *)
Lemma pollLoop_spec (N : nat) (reads : nat -> option (list byte)) (fileName : string) :
  forall fuel k st e,
    retryTimes st = k ->
    buffer st = lastRead reads k ->
    isFinished st = false ->
    k <= S N ->
    S N - k <= fuel ->
    exists n st',
      pollLoop fuel N reads fileName st e =
        (Return st', add_calls (pollCalls reads fileName k n) e) /\
      pollAgain N st' = false /\
      ((n = S N - k /\ isFinished st' = false /\
        forall j, k <= j <= N -> stableAt reads j = false)
       \/
       (exists j, k <= j <= N /\ n = S j - k /\ isFinished st' = true /\
                  buffer st' = reads j /\ stableAt reads j = true /\
                  forall i, k <= i < j -> stableAt reads i = false)).
Proof.
  assert (Hpast : forall k st e,
            retryTimes st = k -> isFinished st = false -> k = S N ->
            forall fuel,
            exists n st',
              pollLoop fuel N reads fileName st e =
                (Return st', add_calls (pollCalls reads fileName k n) e) /\
              pollAgain N st' = false /\
              ((n = S N - k /\ isFinished st' = false /\
                forall j, k <= j <= N -> stableAt reads j = false)
               \/
               (exists j, k <= j <= N /\ n = S j - k /\ isFinished st' = true /\
                          buffer st' = reads j /\ stableAt reads j = true /\
                          forall i, k <= i < j -> stableAt reads i = false))).
  { intros k st e Hk Hfin HkN fuel.
    assert (Hstop : pollAgain N st = false) by (apply pollAgain_past; lia).
    exists 0, st. rewrite pollLoop_stop by exact Hstop.
    change (pollCalls reads fileName k 0) with (@nil Call). rewrite add_calls_nil. split; [reflexivity|]. split; [exact Hstop|].
    left. repeat split; auto; try lia. }
  induction fuel as [|fuel IH]; intros k st e Hk Hbuf Hfin HkN Hfuel.
  - apply Hpast; auto. lia.
  - destruct (Nat.leb_spec k N) as [Hle|Hgt]; [|apply Hpast; auto; lia].
    assert (Hgo : pollAgain N st = true) by (apply pollAgain_go; auto; lia).
    cbn [pollLoop]. rewrite Hgo, bind_run, pollOnce_run.
    set (e1 := add_calls (attemptCalls reads fileName (retryTimes st)) e).
    assert (Hnext : retryTimes (nextState reads st) = S k).
    { unfold nextState. destruct (reads (retryTimes st)); simpl; lia. }
    destruct (isFinished (nextState reads st)) eqn:Hdone.
    + (* attempt k finds the file stable *)
      assert (Hstable : stableAt reads k = true /\
                        buffer (nextState reads st) = reads k).
      { unfold nextState, stableAt in *. rewrite Hk in *.
        destruct (reads k) as [nb|]; simpl in *.
        - rewrite <- Hbuf. split; [exact Hdone|reflexivity].
        - congruence. }
      destruct Hstable as [Hstable Hb].
      assert (Hstop : pollAgain N (nextState reads st) = false).
      { unfold pollAgain. rewrite Hdone. apply andb_false_r. }
      exists 1, (nextState reads st).
      rewrite pollLoop_stop by exact Hstop.
      split.
      { unfold e1. rewrite Hk, pollCalls_S. simpl. now rewrite app_nil_r. }
      split; [exact Hstop|].
      right. exists k. repeat split; auto; try lia.
    + (* attempt k does not: the loop goes on from attempt k + 1 *)
      assert (Hunstable : stableAt reads k = false /\
                          buffer (nextState reads st) = lastRead reads (S k)).
      { unfold nextState, stableAt in *. rewrite Hk in *. simpl lastRead.
        destruct (reads k) as [nb|]; simpl in *.
        - rewrite <- Hbuf. split; [exact Hdone|reflexivity].
        - split; [reflexivity|exact Hbuf]. }
      destruct Hunstable as [Hunstable Hb].
      destruct (IH (S k) (nextState reads st) e1 Hnext Hb Hdone)
        as (n & st' & Hrun & Hstop & Hcases); try lia.
      exists (S n), st'. rewrite Hrun. split.
      { unfold e1. rewrite Hk, add_calls_app, pollCalls_S. reflexivity. }
      split; [exact Hstop|].
      destruct Hcases as [(Hn & Hf & Hall)|(j & Hj & Hn & Hf & Hbj & Hsj & Hbefore)].
      * left. repeat split; auto; try lia.
        intros j Hj. destruct (Nat.eq_dec j k) as [->|Hne]; [exact Hunstable|].
        apply Hall. lia.
      * right. exists j. repeat split; auto; try lia.
        intros i Hi. destruct (Nat.eq_dec i k) as [->|Hne]; [exact Hunstable|].
        apply Hbefore. lia.
Qed.

(** The loop always ends because its own test fails: the [S maxRetries] turns
    of fuel given by [waitForEmscriptenFileN] are never what stops it. *)
Lemma pollLoop_exits (N : nat) (reads : nat -> option (list byte))
    (fileName : string) (e : Emulator) :
  exists st' e',
    pollLoop (S N) N reads fileName
      {| buffer := None; isFinished := false; retryTimes := 0 |} e
      = (Return st', e') /\
    pollAgain N st' = false.
Proof.
  destruct (@pollLoop_spec N reads fileName (S N) 0
              {| buffer := None; isFinished := false; retryTimes := 0 |} e)
    as (n & st' & Hrun & Hstop & _); try reflexivity; try lia.
  exists st', (add_calls (pollCalls reads fileName 0 n) e). split; assumption.
Qed.

Lemma destructure_emscripten_run (e : Emulator) (m : Emscripten) :
  emscripten e = Some m -> destructure_emscripten e = (Return m, e).
Proof.
  intros H. unfold destructure_emscripten, bind, get, ret. now rewrite H.
Qed.

(** The poller, in terms of the first attempt at which the file is stable. *)
Lemma waitForEmscriptenFileN_spec (N : nat) (reads : nat -> option (list byte))
    (fileName : string) (e : Emulator) (m : Emscripten) :
  emscripten e = Some m ->
  exists n,
    after (waitForEmscriptenFileN N reads fileName) e =
      add_calls (pollCalls reads fileName 0 n) e /\
    ((n = S N /\
      outcome (waitForEmscriptenFileN N reads fileName) e = Throw (Error "fs timeout") /\
      forall j, j <= N -> stableAt reads j = false)
     \/
     (exists j, j <= N /\ n = S j /\
        outcome (waitForEmscriptenFileN N reads fileName) e = Return (reads j) /\
        stableAt reads j = true /\
        forall i, i < j -> stableAt reads i = false)).
Proof.
  intros Hm.
  destruct (@pollLoop_spec N reads fileName (S N) 0
              {| buffer := None; isFinished := false; retryTimes := 0 |} e)
    as (n & st' & Hrun & Hstop & Hcases); try reflexivity; try lia.
  exists n. unfold after, outcome, waitForEmscriptenFileN.
  rewrite bind_run, (destructure_emscripten_run _ Hm), bind_run, Hrun.
  destruct Hcases as [(Hn & Hf & Hall)|(j & Hj & Hn & Hf & Hbj & Hsj & Hbefore)].
  - rewrite Hf. simpl. split; [reflexivity|]. left.
    repeat split; auto; try lia. intros j Hj. apply Hall. lia.
  - rewrite Hf. simpl. split; [reflexivity|]. right. exists j.
    rewrite Hbj. repeat split; auto; try lia. intros i Hi. apply Hbefore. lia.
Qed.

Lemma lastRead_Some (reads : nat -> option (list byte)) (k : nat) (a : list byte) :
  lastRead reads k = Some a ->
  exists i, i < k /\ reads i = Some a /\ forall l, i < l < k -> reads l = None.
Proof.
  induction k as [|k IH]; simpl; intros H; [discriminate|].
  destruct (reads k) as [b|] eqn:Hk.
  - exists k. injection H as <-. repeat split; auto. intros l Hl. lia.
  - destruct (IH H) as (i & Hi & Hri & Hbetween).
    exists i. repeat split; auto. intros l Hl.
    destruct (Nat.eq_dec l k) as [->|Hne]; [exact Hk|]. apply Hbetween. lia.
Qed.

(** [stableAt] spelled out: attempt [j] and the successful attempt before it
    read the same non-zero number of bytes. *)
Lemma stableAt_true (reads : nat -> option (list byte)) (j : nat) :
  stableAt reads j = true ->
  exists i a b,
    i < j /\ reads i = Some a /\ reads j = Some b /\
    (forall l, i < l < j -> reads l = None) /\
    0 < List.length a /\ List.length a = List.length b.
Proof.
  unfold stableAt, sameNonEmptyLength. intros H.
  destruct (reads j) as [b|] eqn:Hj; [|discriminate].
  destruct (lastRead reads j) as [a|] eqn:Ha; [|discriminate].
  apply andb_true_iff in H. destruct H as [Hpos Heq].
  apply Nat.ltb_lt in Hpos. apply Nat.eqb_eq in Heq.
  destruct (lastRead_Some _ _ Ha) as (i & Hi & Hri & Hbetween).
  exists i, a, b. repeat split; auto.
Qed.

Lemma readAttempts_app (cs1 cs2 : list Call) :
  readAttempts (cs1 ++ cs2) = readAttempts cs1 + readAttempts cs2.
Proof. unfold readAttempts. now rewrite filter_app, length_app. Qed.

Lemma readAttempts_pollCalls (reads : nat -> option (list byte))
    (fileName : string) (n : nat) :
  forall k, readAttempts (pollCalls reads fileName k n) = n.
Proof.
  induction n as [|n IH]; intros k; [reflexivity|].
  rewrite pollCalls_S, readAttempts_app, IH.
  unfold attemptCalls, readAttempts. destruct (reads k); reflexivity.
Qed.

(** C2 (amended).  For every retry ceiling [N] and every read source that
    never stabilizes (no successful read has the same non-zero length as the
    successful read before it), the poller rejects with the error fs timeout
    after exactly [N + 1] read attempts: attempt 0 and [N] retries. *)
Theorem poller_times_out_after_all_attempts (N : nat)
    (reads : nat -> option (list byte)) (fileName : string)
    (e : Emulator) (m : Emscripten) :
  emscripten e = Some m ->
  (forall i j a b,
      i < j -> j <= N ->
      reads i = Some a -> reads j = Some b ->
      (forall l, i < l < j -> reads l = None) ->
      ~ (0 < List.length a /\ List.length a = List.length b)) ->
  outcome (waitForEmscriptenFileN N reads fileName) e = Throw (Error "fs timeout") /\
  calls (after (waitForEmscriptenFileN N reads fileName) e) =
    calls e ++ pollCalls reads fileName 0 (N + 1) /\
  readAttempts (calls (after (waitForEmscriptenFileN N reads fileName) e)) =
    readAttempts (calls e) + (N + 1).
Proof.
  intros Hm Hnever.
  destruct (waitForEmscriptenFileN_spec N reads fileName e Hm)
    as (n & Hafter & [(Hn & Hout & _)|(j & Hj & _ & _ & Hstable & _)]).
  - subst n. rewrite Hafter, Hout, Nat.add_1_r. simpl calls.
    rewrite readAttempts_app, readAttempts_pollCalls. repeat split.
  - exfalso.
    destruct (stableAt_true _ _ Hstable) as (i & a & b & Hi & Ha & Hb & Hbetween & Hpos & Heq).
    exact (Hnever i j a b Hi Hj Ha Hb Hbetween (conj Hpos Heq)).
Qed.

Lemma poller_times_out_after_all_attempts_witness :
  outcome (waitForEmscriptenFileN 3 never_there "s.state") (launched pong_options)
    = Throw (Error "fs timeout") /\
  calls (after (waitForEmscriptenFileN 3 never_there "s.state") (launched pong_options)) =
    calls (launched pong_options) ++ pollCalls never_there "s.state" 0 (3 + 1) /\
  readAttempts
    (calls (after (waitForEmscriptenFileN 3 never_there "s.state") (launched pong_options))) =
    readAttempts (calls (launched pong_options)) + (3 + 1).
Proof.
  apply (@poller_times_out_after_all_attempts 3 never_there "s.state"
           (launched pong_options) EmscriptenHandle).
  - reflexivity.
  - intros i j a b _ _ Ha. discriminate Ha.
Defined.

(** C2 as stated fails: with retry ceiling 3 and a file that never appears,
    the poller makes 4 read attempts before it rejects, not 3; with the
    ceiling 30 of the code it makes 31. *)
Lemma poller_ceiling_3_reads_4_times :
  outcome (waitForEmscriptenFileN 3 never_there "s.state") (launched pong_options)
    = Throw (Error "fs timeout") /\
  readAttempts
    (calls (after (waitForEmscriptenFileN 3 never_there "s.state") (launched pong_options)))
    <> 3 /\
  readAttempts
    (calls (after (waitForEmscriptenFileN 3 never_there "s.state") (launched pong_options)))
    = 4 /\
  readAttempts
    (calls (after (waitForEmscriptenFile silent_world "s.state") (launched pong_options)))
    = 31.
Proof.
  repeat split; try reflexivity. vm_compute. discriminate.
Qed.

(** C5 (amended).  Once the module is instantiated the poller makes between
    1 and [N + 1] read attempts, and before the read of attempt [k] (counted
    from 0) it waits [delayTime k], which is the minimum of 100 * 2^[k] and
    1000.  It either rejects with fs timeout or returns the bytes of its last
    read, and it returns only when that read and the previous successful read
    saw the same non-zero number of bytes.  The two reads need not be
    consecutive attempts: every attempt between them raised.  At least two
    reads have succeeded, so a single read is never sufficient. *)
Theorem poller_returns_only_a_stable_file (N : nat)
    (reads : nat -> option (list byte)) (fileName : string)
    (e : Emulator) (m : Emscripten) :
  emscripten e = Some m ->
  exists n,
    1 <= n <= N + 1 /\
    calls (after (waitForEmscriptenFileN N reads fileName) e) =
      calls e ++
      flat_map
        (fun k =>
           delay (Z.min (100 * 2 ^ Z.of_nat k) 1000) :: FS_readFile fileName ::
           match reads k with Some _ => [] | None => [console_warn] end)
        (seq 0 n) /\
    (outcome (waitForEmscriptenFileN N reads fileName) e = Throw (Error "fs timeout")
     \/
     exists i j a b,
       i < j /\ j <= N /\ n = j + 1 /\
       reads i = Some a /\ reads j = Some b /\
       (forall l, i < l < j -> reads l = None) /\
       0 < List.length a /\ List.length a = List.length b /\
       outcome (waitForEmscriptenFileN N reads fileName) e = Return (Some b)).
Proof.
  intros Hm.
  destruct (waitForEmscriptenFileN_spec N reads fileName e Hm)
    as (n & Hafter & Hcases).
  exists n. rewrite Hafter. simpl calls.
  change (flat_map _ (seq 0 n)) with (pollCalls reads fileName 0 n).
  destruct Hcases as [(Hn & Hout & _)|(j & Hj & Hn & Hout & Hstable & _)].
  - repeat split; try lia. left. exact Hout.
  - repeat split; try lia. right.
    destruct (stableAt_true _ _ Hstable) as (i & a & b & Hi & Ha & Hb & Hbetween & Hpos & Heq).
    exists i, j, a, b. rewrite Hout, Hb. repeat split; auto; lia.
Qed.

Lemma poller_returns_only_a_stable_file_witness :
  exists n,
    1 <= n <= 30 + 1 /\
    calls (after (waitForEmscriptenFileN 30 growing_file "s.state") (launched pong_options)) =
      calls (launched pong_options) ++
      flat_map
        (fun k =>
           delay (Z.min (100 * 2 ^ Z.of_nat k) 1000) :: FS_readFile "s.state" ::
           match growing_file k with Some _ => [] | None => [console_warn] end)
        (seq 0 n) /\
    (outcome (waitForEmscriptenFileN 30 growing_file "s.state") (launched pong_options)
       = Throw (Error "fs timeout")
     \/
     exists i j a b,
       i < j /\ j <= 30 /\ n = j + 1 /\
       growing_file i = Some a /\ growing_file j = Some b /\
       (forall l, i < l < j -> growing_file l = None) /\
       0 < List.length a /\ List.length a = List.length b /\
       outcome (waitForEmscriptenFileN 30 growing_file "s.state") (launched pong_options)
         = Return (Some b)).
Proof.
  exact (@poller_returns_only_a_stable_file 30 growing_file "s.state"
           (launched pong_options) EmscriptenHandle eq_refl).
Defined.

(** C5 as stated fails: the two reads that agree need not be consecutive
    polls.  On [interrupted_file] the first read sees two bytes, the second
    raises and the third sees two bytes again; the poller returns after the
    third attempt, although no two attempts in a row have both observed a
    length. *)
Lemma poller_returns_across_a_failed_read :
  waitForEmscriptenFileN 30 interrupted_file "s.state" (launched pong_options) =
    (Return (Some [Byte.x09; Byte.x09]),
     add_calls
       [delay 100; FS_readFile "s.state";
        delay 200; FS_readFile "s.state"; console_warn;
        delay 400; FS_readFile "s.state"]
       (launched pong_options)) /\
  interrupted_file 1 = None /\
  ~ (exists k a b,
       interrupted_file k = Some a /\ interrupted_file (S k) = Some b /\
       0 < List.length a /\ List.length a = List.length b).
Proof.
  split; [reflexivity|]. split; [reflexivity|].
  intros (k & a & b & Ha & Hb & _).
  destruct k as [|[|[|k]]]; cbn in Ha, Hb; discriminate.
Qed.

(** The run of the poller on [growing_file]: four attempts, waits of 100,
    200, 400 and 800, and the bytes of the fourth read. *)
Example poller_on_growing_file :
  waitForEmscriptenFileN 30 growing_file "s.state" (launched pong_options) =
  (Return (Some [Byte.x01; Byte.x02; Byte.x03; Byte.x05]),
   add_calls
     [delay 100; FS_readFile "s.state";
      delay 200; FS_readFile "s.state"; console_warn;
      delay 400; FS_readFile "s.state";
      delay 800; FS_readFile "s.state"]
     (launched pong_options)).
Proof. reflexivity. Qed.

(** ** The poller between its awaits *)

Lemma add_calls_log (c : Call) (cs : list Call) (e : Emulator) :
  add_calls cs (log_call c e) = add_calls (c :: cs) e.
Proof. unfold add_calls, log_call. cbn. now rewrite <- app_assoc. Qed.

Lemma pollSuspend_run (N : nat) (st : PollState) (e : Emulator) :
  pollSuspend N st e =
  (Return (pollNext N st),
   add_calls (if pollAgain N st then [delay (delayTime (retryTimes st))] else []) e).
Proof.
  unfold pollSuspend, pollNext. destruct (pollAgain N st); [reflexivity|].
  rewrite add_calls_nil. destruct (negb (isFinished st)); reflexivity.
Qed.

Lemma pollResume_run (N : nat) (reads : nat -> option (list byte))
    (fileName : string) (st : PollState) (e : Emulator) :
  pollResume N reads fileName st e =
  (Return (pollNext N (nextState reads st)),
   add_calls (timerCalls N reads fileName (Suspended st)) e).
Proof.
  unfold pollResume, timerCalls, nextState.
  destruct (reads (retryTimes st)) as [newBuffer|];
    unfold bind, update, ret; rewrite pollSuspend_run, !add_calls_log;
    reflexivity.
Qed.

Lemma timerFires_run (N : nat) (reads : nat -> option (list byte))
    (fileName : string) (p : Polling) (e : Emulator) :
  timerFires N reads fileName p e =
  (Return (afterTimer N reads p), add_calls (timerCalls N reads fileName p) e).
Proof.
  destruct p as [st|bytes|err]; cbn [timerFires afterTimer].
  - apply pollResume_run.
  - cbn [timerCalls]. now rewrite add_calls_nil.
  - cbn [timerCalls]. now rewrite add_calls_nil.
Qed.

Lemma pollStart_run (N : nat) (e : Emulator) (h : Emscripten) :
  emscripten e = Some h ->
  pollStart N e = (Return (Suspended pollInitial), log_call (delay 100) e).
Proof.
  intros Hh. unfold pollStart, bind, get. rewrite Hh, pollSuspend_run.
  reflexivity.
Qed.

Lemma pollAgain_next (N : nat) (reads : nat -> option (list byte)) (st : PollState) :
  pollAgain N (nextState reads st) = true -> retryTimes st < N.
Proof.
  unfold pollAgain. intros H. apply andb_true_iff in H. destruct H as [H _].
  apply Nat.leb_le in H.
  unfold nextState in H. destruct (reads (retryTimes st)); cbn [retryTimes] in H; lia.
Qed.

(** Each timer that fires brings a suspended call one step closer to its
    end. *)
Lemma timersLeft_afterTimer (N : nat) (reads : nat -> option (list byte)) (p : Polling) :
  timersLeft N (afterTimer N reads p) <= Nat.pred (timersLeft N p).
Proof.
  destruct p as [st|bytes|err]; cbn [afterTimer timersLeft Nat.pred]; try lia.
  unfold pollNext.
  destruct (pollAgain N (nextState reads st)) eqn:Hgo.
  - pose proof (pollAgain_next _ _ _ Hgo) as Hlt. cbn [timersLeft].
    assert (retryTimes (nextState reads st) = retryTimes st + 1).
    { unfold nextState. destruct (reads (retryTimes st)); reflexivity. }
    lia.
  - destruct (negb (isFinished (nextState reads st))); cbn [timersLeft]; lia.
Qed.

(** Awaiting the poller while nothing else runs is the loop of
    [waitForEmscriptenFileN]. *)
Lemma pollLoop_between_awaits (N : nat) (reads : nat -> option (list byte))
    (fileName : string) :
  forall fuel st e,
    S N - retryTimes st <= fuel ->
    (st' <- pollLoop fuel N reads fileName st ;;
     if negb (isFinished st') then throw (Error "fs timeout") else ret (buffer st')) e =
    (p <- pollSuspend N st ;; pollAwait fuel N reads fileName p) e.
Proof.
  induction fuel as [|fuel IH]; intros st e Hfuel.
  - assert (Hstop : pollAgain N st = false).
    { unfold pollAgain. replace (retryTimes st <=? N) with false; [reflexivity|].
      symmetry. apply Nat.leb_gt. lia. }
    rewrite !bind_run, pollLoop_stop, pollSuspend_run by exact Hstop.
    unfold pollNext. rewrite Hstop, add_calls_nil.
    destruct (negb (isFinished st)); reflexivity.
  - destruct (pollAgain N st) eqn:Hgo.
    + rewrite (bind_run (pollSuspend N st)), pollSuspend_run. unfold pollNext.
      rewrite Hgo. cbn [pollAwait pollLoop]. rewrite Hgo.
      assert (Hnext : retryTimes (nextState reads st) = retryTimes st + 1).
      { unfold nextState. destruct (reads (retryTimes st)); reflexivity. }
      specialize (IH (nextState reads st)
                     (add_calls (attemptCalls reads fileName (retryTimes st)) e)).
      rewrite !bind_run in IH. rewrite !bind_run, pollOnce_run.
      rewrite IH by lia. rewrite pollResume_run, !pollSuspend_run.
      rewrite !add_calls_app. unfold attemptCalls, timerCalls. reflexivity.
    + rewrite !bind_run, pollLoop_stop, pollSuspend_run by exact Hgo.
      unfold pollNext. rewrite Hgo, add_calls_nil.
      destruct (negb (isFinished st)); reflexivity.
Qed.

(** The stretches of the poller between its awaits, run one after the other,
    are [waitForEmscriptenFileN]: same outcome, same calls in the same
    order. *)
Lemma waitForEmscriptenFileN_between_awaits (N : nat)
    (reads : nat -> option (list byte)) (fileName : string) (e : Emulator) :
  waitForEmscriptenFileN N reads fileName e =
  (p <- pollStart N ;; pollAwait (S N) N reads fileName p) e.
Proof.
  unfold waitForEmscriptenFileN, pollStart, destructure_emscripten.
  rewrite !bind_run. unfold get.
  destruct (emscripten e) as [h|]; [|reflexivity].
  cbn [ret throw]. apply pollLoop_between_awaits. cbn [retryTimes]. lia.
Qed.

Lemma settlesTo_S (fuel N : nat) (reads : nat -> option (list byte)) (p : Polling) :
  settlesTo (S fuel) N reads p = settlesTo fuel N reads (afterTimer N reads p).
Proof. destruct p; destruct fuel; reflexivity. Qed.

Lemma timeoutOnly_pollNext (N : nat) (st : PollState) : timeoutOnly (pollNext N st).
Proof.
  unfold pollNext. destruct (pollAgain N st); [exact I|].
  destruct (negb (isFinished st)); [reflexivity|exact I].
Qed.

Lemma timeoutOnly_afterTimer (N : nat) (reads : nat -> option (list byte)) (p : Polling) :
  timeoutOnly p -> timeoutOnly (afterTimer N reads p).
Proof.
  destruct p as [st|bytes|err]; cbn [afterTimer]; intros H; try exact H.
  apply timeoutOnly_pollNext.
Qed.

Lemma bothSettle_throw_r (a : Completion (option (list byte))) (err : Exception) :
  bothSettle a (Throw err) = Throw (Error "fs timeout").
Proof. destruct a; reflexivity. Qed.

(** One round of [Promise_all2]: the timer of the first call fires, then, if
    that call was not rejected, the timer of the second. *)
Lemma Promise_all2_round (fuel N : nat)
    (readsA : nat -> option (list byte)) (fileA : string)
    (readsB : nat -> option (list byte)) (fileB : string)
    (a b : Polling) (e : Emulator) :
  match a, b with
  | Rejected _, _ | _, Rejected _ | Resolved _, Resolved _ => False
  | _, _ => True
  end ->
  Promise_all2 (S fuel) N readsA fileA readsB fileB a b e =
  match afterTimer N readsA a with
  | Rejected err => (Throw err, add_calls (timerCalls N readsA fileA a) e)
  | a' =>
      Promise_all2 fuel N readsA fileA readsB fileB a' (afterTimer N readsB b)
        (add_calls (timerCalls N readsA fileA a ++ timerCalls N readsB fileB b) e)
  end.
Proof.
  intros Hopen.
  destruct a as [sa|va|ea], b as [sb|vb|eb]; try contradiction;
    cbn [Promise_all2]; rewrite bind_run, timerFires_run;
    destruct (afterTimer N readsA _) as [sa'|va'|ea']; try reflexivity;
    rewrite bind_run, timerFires_run, add_calls_app; reflexivity.
Qed.

(** How [Promise_all2] ends: as the two calls do when each is left to its
    timers, and all it does to the object is make calls. *)
Lemma Promise_all2_run (N : nat)
    (readsA : nat -> option (list byte)) (fileA : string)
    (readsB : nat -> option (list byte)) (fileB : string) :
  forall fuel a b e,
    timeoutOnly a -> timeoutOnly b ->
    exists cs,
      Promise_all2 fuel N readsA fileA readsB fileB a b e =
      (bothSettle (settlesTo fuel N readsA a) (settlesTo fuel N readsB b),
       add_calls cs e).
Proof.
  induction fuel as [|fuel IH]; intros a b e Ha Hb.
  - exists []. rewrite add_calls_nil.
    destruct a as [sa|va|ea], b as [sb|vb|eb]; cbn [timeoutOnly] in Ha, Hb;
      subst; reflexivity.
  - assert (Hround := Promise_all2_round fuel N readsA fileA readsB fileB a b e).
    destruct a as [sa|va|ea], b as [sb|vb|eb]; cbn [timeoutOnly] in Ha, Hb; subst;
      try (exists []; rewrite add_calls_nil; cbn [settlesTo];
           rewrite ?bothSettle_throw_r; reflexivity);
      rewrite (Hround I), !settlesTo_S; clear Hround;
      match goal with
      | |- context [afterTimer N readsA ?a] =>
          pose proof (timeoutOnly_afterTimer N readsA a I) as Ha';
          destruct (afterTimer N readsA a) as [sa'|va'|ea'] eqn:Hnext
      end;
      try (cbn [timeoutOnly] in Ha'; subst; eexists;
           destruct fuel; reflexivity);
      match goal with
      | |- context [Promise_all2 fuel N readsA fileA readsB fileB ?a'
                      (afterTimer N readsB ?b0) ?e'] =>
          destruct (IH a' (afterTimer N readsB b0) e' Ha'
                      (timeoutOnly_afterTimer N readsB b0 I)) as [cs Hcs];
          rewrite Hcs, add_calls_app; eexists; reflexivity
      end.
Qed.

(** A suspended call that arrives at attempt [k] unfinished, with the last
    successful read in [buffer]. *)
Lemma nextState_cases (reads : nat -> option (list byte)) (k : nat) (st : PollState) :
  retryTimes st = k ->
  buffer st = lastRead reads k ->
  isFinished st = false ->
  retryTimes (nextState reads st) = S k /\
  ((isFinished (nextState reads st) = true /\ stableAt reads k = true /\
    buffer (nextState reads st) = reads k)
   \/
   (isFinished (nextState reads st) = false /\ stableAt reads k = false /\
    buffer (nextState reads st) = lastRead reads (S k))).
Proof.
  intros Hk Hbuf Hfin. unfold nextState, stableAt. rewrite Hk. cbn [lastRead].
  destruct (reads k) as [nb|]; cbn [retryTimes isFinished buffer].
  - split; [lia|]. rewrite Hbuf.
    destruct (sameNonEmptyLength (lastRead reads k) nb); [left|right]; repeat split.
  - split; [lia|]. right. repeat split; assumption.
Qed.

(** How a suspended call ends, in terms of the first attempt at which the
    file is stable. *)
Lemma settlesTo_spec (N : nat) (reads : nat -> option (list byte)) :
  forall fuel k st,
    retryTimes st = k ->
    buffer st = lastRead reads k ->
    isFinished st = false ->
    k <= N ->
    S N - k <= fuel ->
    ((forall j, k <= j <= N -> stableAt reads j = false) ->
     settlesTo fuel N reads (Suspended st) = Throw (Error "fs timeout")) /\
    (forall j,
        k <= j <= N ->
        stableAt reads j = true ->
        (forall i, k <= i < j -> stableAt reads i = false) ->
        settlesTo fuel N reads (Suspended st) = Return (reads j)).
Proof.
  induction fuel as [|fuel IH]; intros k st Hk Hbuf Hfin HkN Hfuel; [lia|].
  destruct (nextState_cases reads st Hk Hbuf Hfin) as [Hnext Hcases].
  cbn [settlesTo afterTimer]. unfold pollNext, pollAgain. rewrite Hnext.
  destruct Hcases as [(Hdone & Hstable & Hb)|(Hdone & Hunstable & Hb)];
    rewrite Hdone; cbn [negb].
  - rewrite andb_false_r. split.
    + intros Hnever. rewrite Hnever in Hstable by lia. discriminate.
    + intros j Hj Hsj Hfirst.
      assert (j = k).
      { destruct (Nat.eq_dec j k) as [Heq|Hne]; [exact Heq|].
        rewrite Hfirst in Hstable by lia. discriminate. }
      subst j. rewrite Hb. destruct fuel; reflexivity.
  - rewrite andb_true_r. destruct (Nat.leb_spec (S k) N) as [Hle|Hgt].
    + destruct (IH (S k) (nextState reads st) Hnext Hb Hdone Hle) as [Hnone Hsome];
        [lia|].
      split.
      * intros Hnever. apply Hnone. intros j Hj. apply Hnever. lia.
      * intros j Hj Hsj Hfirst.
        assert (j <> k) by (intros ->; congruence).
        apply Hsome; [lia|exact Hsj|]. intros i Hi. apply Hfirst. lia.
    + split.
      * intros _. destruct fuel; reflexivity.
      * intros j Hj Hsj _. assert (j = k) by lia. subst j. congruence.
Qed.

(** The same for a call that has just been started. *)
Lemma settlesTo_started (N : nat) (reads : nat -> option (list byte)) :
  ((forall j, j <= N -> stableAt reads j = false) ->
   settlesTo (S N) N reads (Suspended pollInitial) = Throw (Error "fs timeout")) /\
  (forall j,
      j <= N ->
      stableAt reads j = true ->
      (forall i, i < j -> stableAt reads i = false) ->
      settlesTo (S N) N reads (Suspended pollInitial) = Return (reads j)).
Proof.
  destruct (@settlesTo_spec N reads (S N) 0 pollInitial) as [Hnone Hsome];
    try reflexivity; try lia.
  split.
  - intros Hnever. apply Hnone. intros j Hj. apply Hnever. lia.
  - intros j Hj Hs Hfirst. apply Hsome; [lia|exact Hs|].
    intros i Hi. apply Hfirst. lia.
Qed.

Lemma pollAwait_fuel (N : nat) (reads : nat -> option (list byte)) (fileName : string) :
  forall fuel1 fuel2 p e,
    timersLeft N p <= fuel1 -> timersLeft N p <= fuel2 ->
    pollAwait fuel1 N reads fileName p e = pollAwait fuel2 N reads fileName p e.
Proof.
  induction fuel1 as [|fuel1 IH]; intros fuel2 p e H1 H2.
  - destruct p; cbn [timersLeft] in H1; try lia; destruct fuel2; reflexivity.
  - destruct fuel2 as [|fuel2].
    + destruct p; cbn [timersLeft] in H2; try lia; reflexivity.
    + destruct p as [st|bytes|err]; try reflexivity.
      pose proof (timersLeft_afterTimer N reads (Suspended st)) as Hleft.
      cbn [pollAwait afterTimer] in *. rewrite !bind_run, pollResume_run.
      apply IH; cbn [timersLeft Nat.pred] in *; lia.
Qed.

(** The await of a poll always ends because the poll settles: the
    [S maxRetries] timers given to it are never what stops it. *)
Lemma pollAwait_exits (N : nat) (reads : nat -> option (list byte))
    (fileName : string) (fuel : nat) (e : Emulator) :
  S N <= fuel ->
  pollAwait fuel N reads fileName (Suspended pollInitial) e =
  pollAwait (S N) N reads fileName (Suspended pollInitial) e.
Proof.
  intros Hfuel. apply pollAwait_fuel; cbn [timersLeft pollInitial retryTimes]; lia.
Qed.

(** More rounds than the calls have timers left change nothing. *)
Lemma Promise_all2_fuel (N : nat)
    (readsA : nat -> option (list byte)) (fileA : string)
    (readsB : nat -> option (list byte)) (fileB : string) :
  forall fuel1 fuel2 a b e,
    timersLeft N a <= fuel1 -> timersLeft N b <= fuel1 ->
    timersLeft N a <= fuel2 -> timersLeft N b <= fuel2 ->
    Promise_all2 fuel1 N readsA fileA readsB fileB a b e =
    Promise_all2 fuel2 N readsA fileA readsB fileB a b e.
Proof.
  induction fuel1 as [|fuel1 IH]; intros fuel2 a b e Ha1 Hb1 Ha2 Hb2.
  - destruct a, b; cbn [timersLeft] in Ha1, Hb1; try lia; destruct fuel2; reflexivity.
  - destruct fuel2 as [|fuel2].
    + destruct a, b; cbn [timersLeft] in Ha2, Hb2; try lia; reflexivity.
    + pose proof (timersLeft_afterTimer N readsA a) as Hla.
      pose proof (timersLeft_afterTimer N readsB b) as Hlb.
      assert (Hround1 := Promise_all2_round fuel1 N readsA fileA readsB fileB a b e).
      assert (Hround2 := Promise_all2_round fuel2 N readsA fileA readsB fileB a b e).
      destruct a as [sa|va|ea], b as [sb|vb|eb]; try reflexivity;
        rewrite (Hround1 I), (Hround2 I);
        destruct (afterTimer N readsA _) as [sa'|va'|ea']; try reflexivity;
        apply IH; cbn [timersLeft Nat.pred] in *; lia.
Qed.

(** [Promise_all2] always ends because the two calls settle: the
    [S maxRetries] rounds given by [saveState] are never what stops it. *)
Lemma Promise_all2_exits (N : nat)
    (readsA : nat -> option (list byte)) (fileA : string)
    (readsB : nat -> option (list byte)) (fileB : string)
    (fuel : nat) (e : Emulator) :
  S N <= fuel ->
  Promise_all2 fuel N readsA fileA readsB fileB
    (Suspended pollInitial) (Suspended pollInitial) e =
  Promise_all2 (S N) N readsA fileA readsB fileB
    (Suspended pollInitial) (Suspended pollInitial) e.
Proof.
  intros Hfuel. apply Promise_all2_fuel; cbn [timersLeft pollInitial retryTimes]; lia.
Qed.

(** Two polls of files that never appear, with retry ceiling 1: the timers
    fire in turns, and the promise is rejected when the first poll times
    out, before the second poll makes its last read. *)
Example Promise_all2_rejects_at_the_first_timeout :
  Promise_all2 2 1 never_there "s.state" never_there "s.state.png"
    (Suspended pollInitial) (Suspended pollInitial) (launched pong_options) =
  (Throw (Error "fs timeout"),
   add_calls
     [FS_readFile "s.state"; console_warn; delay 200;
      FS_readFile "s.state.png"; console_warn; delay 200;
      FS_readFile "s.state"; console_warn]
     (launched pong_options)).
Proof. reflexivity. Qed.

(** ** Operations of the controller and the terminated mark *)

Lemma frames_ret {A} (a : A) : frames (ret a).
Proof. intros p e. reflexivity. Qed.

Lemma frames_throw {A} (err : Exception) : frames (@throw A err).
Proof. intros p e. reflexivity. Qed.

Lemma frames_get {A} (field : Emulator -> A) :
  (forall p e, field (set_processStatus p e) = field e) -> frames (get field).
Proof. intros H p e. unfold get. now rewrite H. Qed.

Lemma frames_getter {A} (g : Emulator -> Completion A) :
  (forall p e, g (set_processStatus p e) = g e) -> frames (getter g).
Proof. intros H p e. unfold getter. now rewrite H. Qed.

Lemma frames_update (f : Emulator -> Emulator) :
  (forall p e, f (set_processStatus p e) = set_processStatus p (f e)) ->
  frames (update f).
Proof. intros H p e. unfold update. simpl. now rewrite H. Qed.

Lemma frames_bind {A B} (m : M A) (k : A -> M B) :
  frames m -> (forall a, frames (k a)) -> frames (bind m k).
Proof.
  intros Hm Hk p e. unfold bind. rewrite Hm.
  destruct (m e) as [[a|err] e']; simpl; [apply Hk|reflexivity].
Qed.

Lemma frames_try_catch (body : M unit) : frames body -> frames (try_catch body).
Proof.
  intros Hb p e. unfold try_catch. rewrite Hb.
  destruct (body e) as [[a|err] e']; reflexivity.
Qed.

Lemma frames_FS_unlink_call (x : Externals) (path : string) :
  frames (FS_unlink_call x path).
Proof.
  intros p e. unfold FS_unlink_call. simpl.
  destruct (FS_unlink_throws x (calls e) path); reflexivity.
Qed.

Create HintDb frames.

#[local] Hint Resolve frames_ret frames_throw frames_try_catch
  frames_FS_unlink_call : frames.

(** One step of a framing proof: follow the shape of the method. *)
Ltac frames_step :=
  match goal with
  | |- frames (bind _ _) => apply frames_bind; [|intros ?]
  | |- frames (get _) => apply frames_get; reflexivity
  | |- frames (getter _) => apply frames_getter; reflexivity
  | |- frames (update _) => apply frames_update; reflexivity
  | |- frames (try_catch _) => apply frames_try_catch
  | |- frames (match ?v with _ => _ end) => destruct v
  | |- frames _ => solve [auto with frames]
  end.

Ltac frames_method := repeat frames_step.

Lemma frames_sendCommand (msg : RetroArchCommand) : frames (sendCommand msg).
Proof. unfold sendCommand. frames_method. Qed.

#[local] Hint Resolve frames_sendCommand : frames.

Lemma frames_stdin : frames stdin.
Proof. unfold stdin. frames_method. Qed.

Lemma frames_resume : frames resume.
Proof. unfold resume. frames_method. Qed.

#[local] Hint Resolve frames_resume : frames.

Lemma frames_restart : frames restart.
Proof. unfold restart. frames_method. Qed.

Lemma frames_pause : frames pause.
Proof. unfold pause. frames_method. Qed.

Lemma frames_destructure_emscripten : frames destructure_emscripten.
Proof. unfold destructure_emscripten. frames_method. Qed.

#[local] Hint Resolve frames_restart frames_pause frames_destructure_emscripten : frames.

Lemma frames_resize (width height : Z) : frames (resize width height).
Proof. unfold resize. frames_method. Qed.

Lemma frames_pollOnce (reads : nat -> option (list byte)) (fileName : string)
    (st : PollState) :
  frames (pollOnce reads fileName st).
Proof. unfold pollOnce. frames_method. Qed.

Lemma frames_pollLoop (N : nat) (reads : nat -> option (list byte))
    (fileName : string) :
  forall fuel st, frames (pollLoop fuel N reads fileName st).
Proof.
  induction fuel as [|fuel IH]; intros st; simpl;
    destruct (pollAgain N st); auto with frames.
  apply frames_bind; [apply frames_pollOnce|]. intros st'. apply IH.
Qed.

Lemma frames_waitForEmscriptenFile (x : Externals) (fileName : string) :
  frames (waitForEmscriptenFile x fileName).
Proof.
  unfold waitForEmscriptenFile, waitForEmscriptenFileN.
  apply frames_bind; [auto with frames|]. intros _.
  apply frames_bind; [apply frames_pollLoop|]. intros st.
  destruct (negb (isFinished st)); auto with frames.
Qed.

Lemma frames_clearStateFile (x : Externals) : frames (clearStateFile x).
Proof. unfold clearStateFile. frames_method. Qed.

Lemma frames_pollSuspend (N : nat) (st : PollState) : frames (pollSuspend N st).
Proof.
  unfold pollSuspend. destruct (pollAgain N st); [frames_method|].
  destruct (negb (isFinished st)); auto with frames.
Qed.

#[local] Hint Resolve frames_pollSuspend : frames.

Lemma frames_pollStart (N : nat) : frames (pollStart N).
Proof. unfold pollStart. frames_method. Qed.

Lemma frames_pollResume (N : nat) (reads : nat -> option (list byte))
    (fileName : string) (st : PollState) :
  frames (pollResume N reads fileName st).
Proof. unfold pollResume. frames_method. Qed.

Lemma frames_timerFires (N : nat) (reads : nat -> option (list byte))
    (fileName : string) (p : Polling) :
  frames (timerFires N reads fileName p).
Proof. destruct p; cbn [timerFires]; auto using frames_pollResume with frames. Qed.

Lemma frames_Promise_all2 (N : nat)
    (readsA : nat -> option (list byte)) (fileA : string)
    (readsB : nat -> option (list byte)) (fileB : string) :
  forall fuel a b, frames (Promise_all2 fuel N readsA fileA readsB fileB a b).
Proof.
  induction fuel as [|fuel IH]; intros a b;
    destruct a, b; cbn [Promise_all2]; auto with frames;
    (apply frames_bind;
       [ apply frames_timerFires
       | intros a'; destruct a'; auto with frames;
         (apply frames_bind; [apply frames_timerFires | intros b'; apply IH]) ]).
Qed.

#[local] Hint Resolve frames_resize frames_waitForEmscriptenFile
  frames_clearStateFile frames_pollStart frames_Promise_all2 : frames.

Lemma frames_saveState (x : Externals) : frames (saveState x).
Proof. unfold saveState. frames_method. Qed.

Lemma frames_loadState (x : Externals) (blob : Blob) : frames (loadState x blob).
Proof. unfold loadState. frames_method. Qed.

#[local] Hint Resolve frames_saveState frames_loadState : frames.

Lemma frames_perform (x : Externals) (op : Operation) : frames (perform x op).
Proof. destruct op; unfold perform; frames_method. Qed.

Lemma set_processStatus_same (e : Emulator) :
  set_processStatus (processStatus e) e = e.
Proof. destruct e. reflexivity. Qed.

(** A method that frames [processStatus] leaves it as it found it. *)
Lemma frames_keeps {A} (m : M A) (e : Emulator) :
  frames m -> processStatus (after m e) = processStatus e.
Proof.
  intros H. unfold after.
  rewrite <- (set_processStatus_same e) at 1. rewrite H. reflexivity.
Qed.

Lemma exit_run (statusCode : Z) (e : Emulator) :
  outcome (exit statusCode) e = Return tt /\
  processStatus (after (exit statusCode) e) = Some terminated /\
  emscripten (after (exit statusCode) e) = emscripten e /\
  messageQueue (after (exit statusCode) e) = messageQueue e /\
  gameStatus (after (exit statusCode) e) = gameStatus e.
Proof.
  unfold outcome, after, exit, cleanupDOM, bind, update, get, ret.
  destruct e as [o [h|] q g p c]; simpl; repeat split.
Qed.

(** C3 (amended).  [exit()] marks the object terminated, and the mark stays:
    no operation of the controller changes it.  But no operation consults it
    either.  [pause], [resume], [restart], [saveState],
    [loadState], [resize] and [sendCommand] end the same way and leave the
    same object, mark apart, whatever [processStatus] holds; so after
    [exit()] each of them runs as it would have without the mark, and
    [pause], [resume], [restart] and [sendCommand] return normally. *)
Theorem terminated_mark_is_never_consulted (x : Externals) (op : Operation)
    (statusCode : Z) (e : Emulator) :
  processStatus (after (exit statusCode) e) = Some terminated /\
  processStatus (after (perform x op) (after (exit statusCode) e)) = Some terminated /\
  (forall p e0,
      outcome (perform x op) (set_processStatus p e0) = outcome (perform x op) e0 /\
      after (perform x op) (set_processStatus p e0) =
        set_processStatus p (after (perform x op) e0)) /\
  match op with
  | call_pause | call_resume | call_restart | call_sendCommand _ =>
      outcome (perform x op) (after (exit statusCode) e) = Return None
  | call_saveState | call_loadState _ | call_resize _ _ => True
  end.
Proof.
  destruct (exit_run statusCode e) as (_ & Hmark & _).
  split; [exact Hmark|]. split.
  { rewrite frames_keeps by apply frames_perform. exact Hmark. }
  split.
  { intros p e0. unfold outcome, after. rewrite (@frames_perform x op p e0).
    split; reflexivity. }
  destruct op; try exact I.
  - unfold outcome, perform, pause, bind, get, update, ret.
    destruct (gameStatus (after (exit statusCode) e)); reflexivity.
  - unfold outcome, perform, resume, bind, get, update, ret.
    destruct (gameStatus (after (exit statusCode) e)); reflexivity.
  - unfold outcome, perform, restart, resume, bind, get, update, ret.
    rewrite sendCommand_run. cbn [gameStatus set_messageQueue].
    destruct (gameStatus (after (exit statusCode) e)); reflexivity.
  - reflexivity.
Qed.

(** C3 as stated fails: on a launched emulator that has exited, [pause()]
    raises nothing, queues PAUSE_TOGGLE and sets the status to 'paused'. *)
Lemma pause_after_exit_still_runs :
  processStatus (after (exit 0) (launched pong_options)) = Some terminated /\
  outcome (perform silent_world call_pause) (after (exit 0) (launched pong_options))
    = Return None /\
  (~ exists err,
       outcome (perform silent_world call_pause) (after (exit 0) (launched pong_options))
         = Throw err) /\
  messageQueue
    (after (perform silent_world call_pause) (after (exit 0) (launched pong_options)))
    = [toggle] /\
  gameStatus
    (after (perform silent_world call_pause) (after (exit 0) (launched pong_options)))
    = paused.
Proof.
  repeat split. intros [err H]. discriminate H.
Qed.

(** ** Saving before the module exists *)

Lemma never_undefined_bind {A B} (m : M A) (k : A -> M (option B)) :
  (forall a, never_undefined (k a)) -> never_undefined (bind m k).
Proof.
  intros Hk e. unfold outcome, bind.
  destruct (m e) as [[a|err] e']; [apply Hk|discriminate].
Qed.

(** With the module instantiated [clearStateFile] returns normally, whatever
    the unlinks do, and only adds calls to the log. *)
Lemma clearStateFile_instantiated (x : Externals) (e : Emulator) (h : Emscripten) :
  emscripten e = Some h ->
  exists cs, clearStateFile x e = (Return tt, add_calls cs e).
Proof.
  intros H.
  unfold clearStateFile. rewrite bind_run, (destructure_emscripten_run _ H).
  unfold try_catch, bind, getter, stateThumbnailFileName, FS_unlink_call.
  destruct (stateFileName x e) as [path|err] eqn:Hpath.
  - destruct (FS_unlink_throws x (calls e) path).
    + exists [FS_unlink path]. reflexivity.
    + assert (Hsame : stateFileName x (log_call (FS_unlink path) e) = Return path)
        by exact Hpath.
      rewrite Hsame.
      exists [FS_unlink path; FS_unlink (path ++ ".png")%string].
      destruct (FS_unlink_throws x _ _);
        unfold add_calls, log_call; simpl; rewrite <- app_assoc; reflexivity.
  - exists []. now rewrite add_calls_nil.
Qed.

(** C10.  While [this.emscripten] is undefined, [saveState()] ends with the
    TypeError that [clearStateFile] raises when it destructures the field, and
    it has done nothing by then.  The guard that follows is never taken: on no
    object at all does [saveState()] resolve to [undefined], because reaching
    the guard means [clearStateFile] has found the module. *)
Theorem saveState_before_instantiation_throws (x : Externals) (e : Emulator) :
  emscripten e = None ->
  outcome (clearStateFile x) e = Throw destructure_error /\
  outcome (saveState x) e = Throw destructure_error /\
  after (saveState x) e = e /\
  (forall e', outcome (saveState x) e' <> Return None).
Proof.
  intros Hnone.
  assert (Hclear : clearStateFile x e = (Throw destructure_error, e)).
  { unfold clearStateFile, destructure_emscripten, bind, get. now rewrite Hnone. }
  split; [unfold outcome; now rewrite Hclear|].
  split; [unfold outcome, saveState; now rewrite bind_run, Hclear|].
  split; [unfold after, saveState; now rewrite bind_run, Hclear|].
  intros e'. unfold outcome, saveState. rewrite bind_run.
  destruct (emscripten e') as [h|] eqn:Hh.
  - destruct (clearStateFile_instantiated x e' Hh) as [cs Hcs]. rewrite Hcs.
    rewrite bind_run. unfold get at 1. cbn [add_calls emscripten]. rewrite Hh.
    apply never_undefined_bind. intros _.
    apply never_undefined_bind. intros enable.
    apply never_undefined_bind. intros buffers.
    apply never_undefined_bind. intros _.
    intros e0. discriminate.
  - unfold clearStateFile, destructure_emscripten, bind, get. rewrite Hh.
    discriminate.
Qed.

Lemma saveState_before_instantiation_throws_witness :
  outcome (clearStateFile silent_world) (constructor pong_options)
    = Throw destructure_error /\
  outcome (saveState silent_world) (constructor pong_options)
    = Throw destructure_error /\
  after (saveState silent_world) (constructor pong_options)
    = constructor pong_options /\
  (forall e', outcome (saveState silent_world) e' <> Return None).
Proof.
  exact (@saveState_before_instantiation_throws silent_world
           (constructor pong_options) eq_refl).
Defined.

(** ** The config serializer *)

Lemma append_assoc (a b c : string) : ((a ++ b) ++ c = a ++ (b ++ c))%string.
Proof. induction a as [|x a IH]; simpl; [reflexivity|now rewrite IH]. Qed.

Lemma append_nil_r (a : string) : (a ++ "")%string = a.
Proof. induction a as [|x a IH]; simpl; [reflexivity|now rewrite IH]. Qed.

Lemma concat_cons (l : string) (ls : list string) :
  String.concat "" (l :: ls) = (l ++ String.concat "" ls)%string.
Proof. destruct ls; simpl; [now rewrite append_nil_r|reflexivity]. Qed.

Lemma ini_plain_app (s t : string) :
  ini_plain (s ++ t) = ini_plain s && ini_plain t.
Proof.
  induction s as [|c s IH]; simpl; [reflexivity|].
  now rewrite IH, andb_assoc.
Qed.

(** A stretch of text without a double underscore passes through
    [replaceAll('__', ...)] unchanged, provided no double underscore forms
    where it meets what follows. *)
Lemma replaceAll_passes (rep s t : string) :
  includes s "__" = false ->
  endsWith s "_" = false \/ String.prefix "_" t = false ->
  replaceAll_skip "__" rep (s ++ t) 0 = (s ++ replaceAll_skip "__" rep t 0)%string.
Proof.
  induction s as [|c s IH]; intros Hinc Hend; [reflexivity|].
  cbn [includes] in Hinc. apply orb_false_iff in Hinc. destruct Hinc as [Hpre Hinc].
  assert (Hend' : endsWith s "_" = false \/ String.prefix "_" t = false).
  { destruct Hend as [Hend|Hend]; [left|right; exact Hend].
    cbn [endsWith] in Hend. apply orb_false_iff in Hend. tauto. }
  assert (Hno : String.prefix "__" (String c (s ++ t)) = false).
  { cbn [String.prefix] in *. destruct (ascii_dec "_" c) as [<-|Hc]; [|reflexivity].
    destruct s as [|c' s].
    - destruct Hend as [Hend|Hend]; [cbv in Hend; discriminate Hend|].
      destruct t as [|c' t]; [reflexivity|exact Hend].
    - cbn [append String.prefix] in *.
      destruct (ascii_dec "_" c'); [destruct s; discriminate Hpre|reflexivity]. }
  change ((String c s ++ t)%string) with (String c (s ++ t)).
  cbn [replaceAll_skip]. rewrite Hno, IH by assumption. reflexivity.
Qed.

Lemma replaceAll_separator (rep u : string) :
  replaceAll_skip "__" rep (" = " ++ "__" ++ u) 0 =
  (" = " ++ rep ++ replaceAll_skip "__" rep u 0)%string.
Proof. destruct u; reflexivity. Qed.

Lemma replaceAll_closing (rep u : string) :
  replaceAll_skip "__" rep ("__" ++ LF ++ u) 0 =
  (rep ++ LF ++ replaceAll_skip "__" rep u 0)%string.
Proof. reflexivity. Qed.

(** One wrapped line followed by more text. *)
Lemma replaceAll_wrapped_line (k v rest : string) :
  includes k "__" = false ->
  includes v "__" = false ->
  endsWith v "_" = false ->
  replaceAll_skip "__" DQUOTE
    ((k ++ " = " ++ ("__" ++ v ++ "__") ++ LF) ++ rest) 0 =
  ((k ++ " = " ++ DQUOTE ++ v ++ DQUOTE ++ LF)
     ++ replaceAll_skip "__" DQUOTE rest 0)%string.
Proof.
  intros Hk Hv Hend.
  replace ((k ++ " = " ++ ("__" ++ v ++ "__") ++ LF) ++ rest)%string
    with (k ++ (" = " ++ "__" ++ (v ++ ("__" ++ LF ++ rest))))%string
    by (rewrite !append_assoc; reflexivity).
  rewrite replaceAll_passes; [|exact Hk|right; reflexivity].
  rewrite replaceAll_separator.
  rewrite replaceAll_passes; [|exact Hv|left; exact Hend].
  rewrite replaceAll_closing.
  rewrite !append_assoc. reflexivity.
Qed.

Lemma replaceAll_wrapped_lines (config : list (string * Scalar)) :
  Forall plainEntry config ->
  replaceAll (ini_lines (wrapValues config)) "__" DQUOTE =
  String.concat "" (List.map quotedLine config).
Proof.
  unfold replaceAll, ini_lines.
  induction config as [|[k v] config IH]; intros H; [reflexivity|].
  inversion H as [|? ? [Hkey Hval] Hrest]; subst.
  unfold plainKey, quotable in Hkey, Hval. cbn [fst snd] in Hkey, Hval.
  apply andb_true_iff in Hkey. destruct Hkey as [_ Hk].
  apply andb_true_iff in Hval. destruct Hval as [Hval Hend].
  apply andb_true_iff in Hval. destruct Hval as [_ Hv].
  apply negb_true_iff in Hk, Hv, Hend.
  cbn [wrapValues List.map fst snd]. rewrite !concat_cons.
  fold (wrapValues config).
  rewrite replaceAll_wrapped_line by assumption.
  rewrite IH by exact Hrest. reflexivity.
Qed.

Lemma wrapValues_plain (config : list (string * Scalar)) :
  Forall plainEntry config ->
  Forall (fun kv => ini_plain (fst kv) = true /\ ini_plain (snd kv) = true)
    (wrapValues config).
Proof.
  induction 1 as [|[k v] config [Hkey Hval] _ IH]; [constructor|].
  constructor; [|exact IH]. cbn [fst snd] in *.
  unfold plainKey in Hkey. unfold quotable in Hval.
  apply andb_true_iff in Hkey. destruct Hkey as [Hk _].
  apply andb_true_iff in Hval. destruct Hval as [Hval _].
  apply andb_true_iff in Hval. destruct Hval as [Hv _].
  split; [exact Hk|].
  rewrite !ini_plain_app, Hv. reflexivity.
Qed.

(** X20.  Suppose [ini.stringify] renders an object of plain keys and plain
    string values as one line key = value per entry.  Then, for every flat
    configuration whose keys are plain and contain no double underscore and
    whose values, converted to strings, are plain, contain no double
    underscore and do not end in an underscore, [writeConfigFile] creates the
    directory of the path and writes one line per entry, in order, of the
    form key = value with the value between double quotes, whether the value
    was a boolean, a number or a string. *)
Theorem config_values_are_quoted (x : Externals) (path : string)
    (config : list (string * Scalar)) (e : Emulator) (h : Emscripten) :
  emscripten e = Some h ->
  (forall entries,
      Forall (fun kv => ini_plain (fst kv) = true /\ ini_plain (snd kv) = true) entries ->
      ini_stringify x entries = ini_lines entries) ->
  Forall plainEntry config ->
  calls (after (writeConfigFile x path config) e) =
    calls e ++
    [FS_mkdirTree (slice path 0 (lastIndexOf path "/"));
     FS_writeFile path
       (Text (String.concat ""
                (List.map
                   (fun kv =>
                      (fst kv ++ " = " ++ DQUOTE ++ ToString (snd kv) ++ DQUOTE ++ LF)%string)
                   config)))].
Proof.
  intros Hh Hini Hplain.
  unfold after, writeConfigFile.
  rewrite bind_run, (destructure_emscripten_run _ Hh).
  unfold bind, update, ret. cbn [snd log_call calls].
  rewrite Hini by (apply wrapValues_plain; exact Hplain).
  rewrite replaceAll_wrapped_lines by exact Hplain.
  rewrite <- app_assoc. reflexivity.
Qed.

Lemma config_values_are_quoted_witness :
  calls (after (writeConfigFile silent_world raConfigPath
                  [("a", Bool true); ("b", Num "4"); ("c", Str "x")])
           (launched pong_options)) =
    calls (launched pong_options) ++
    [FS_mkdirTree (slice raConfigPath 0 (lastIndexOf raConfigPath "/"));
     FS_writeFile raConfigPath
       (Text (String.concat ""
                (List.map
                   (fun kv =>
                      (fst kv ++ " = " ++ DQUOTE ++ ToString (snd kv) ++ DQUOTE ++ LF)%string)
                   [("a", Bool true); ("b", Num "4"); ("c", Str "x")])))].
Proof.
  apply (@config_values_are_quoted silent_world raConfigPath
           [("a", Bool true); ("b", Num "4"); ("c", Str "x")]
           (launched pong_options) EmscriptenHandle).
  - reflexivity.
  - intros entries _. reflexivity.
  - repeat constructor.
Defined.

(** The scenario of the specification, written out: three lines, each value
    between double quotes. *)
Example config_true_4_x :
  calls (after (writeConfigFile silent_world raConfigPath
                  [("a", Bool true); ("b", Num "4"); ("c", Str "x")])
           (launched pong_options)) =
  [FS_mkdirTree "/home/web_user/retroarch/userdata";
   FS_writeFile "/home/web_user/retroarch/userdata/retroarch.cfg"
     (Text ("a = " ++ DQUOTE ++ "true" ++ DQUOTE ++ LF ++
            "b = " ++ DQUOTE ++ "4" ++ DQUOTE ++ LF ++
            "c = " ++ DQUOTE ++ "x" ++ DQUOTE ++ LF))].
Proof. reflexivity. Qed.

(** C7.  [writeConfigFile] does not render every value between quotes as it
    is.  It marks each value with a double underscore on either side and
    afterwards replaces every double underscore of the text by a quote, also
    those that the values brought along or that form where a value meets its
    mark.  For the configuration with the entries a: 'x__y' and b: '_' the
    file written is a = [DQUOTE]x[DQUOTE]y[DQUOTE] and b = [DQUOTE][DQUOTE]_ ,
    not a = [DQUOTE]x__y[DQUOTE] and b = [DQUOTE]_[DQUOTE]. *)
Lemma config_double_underscore_is_mangled :
  calls (after (writeConfigFile silent_world raConfigPath
                  [("a", Str "x__y"); ("b", Str "_")])
           (launched pong_options)) =
  [FS_mkdirTree "/home/web_user/retroarch/userdata";
   FS_writeFile "/home/web_user/retroarch/userdata/retroarch.cfg"
     (Text ("a = " ++ DQUOTE ++ "x" ++ DQUOTE ++ "y" ++ DQUOTE ++ LF ++
            "b = " ++ DQUOTE ++ DQUOTE ++ "_" ++ LF))] /\
  calls (after (writeConfigFile silent_world raConfigPath
                  [("a", Str "x__y"); ("b", Str "_")])
           (launched pong_options)) <>
  [FS_mkdirTree "/home/web_user/retroarch/userdata";
   FS_writeFile "/home/web_user/retroarch/userdata/retroarch.cfg"
     (Text ("a = " ++ DQUOTE ++ "x__y" ++ DQUOTE ++ LF ++
            "b = " ++ DQUOTE ++ "_" ++ DQUOTE ++ LF))].
Proof.
  split; [reflexivity|]. vm_compute. discriminate.
Qed.

(** * Further properties *)

(** ** The command channel as a byte queue *)

Lemma stdin_pending (e : Emulator) :
  outcome stdin e = Return (hd_error (pending (messageQueue e))) /\
  pending (messageQueue (after stdin e)) = tl (pending (messageQueue e)) /\
  (pending (messageQueue e) = [] -> messageQueue (after stdin e) = []).
Proof.
  unfold outcome, after. rewrite stdin_run. cbn [fst snd set_messageQueue messageQueue].
  pose proof (stdin_loop_pending (messageQueue e)) as H.
  destruct (fst (stdin_loop (messageQueue e))) as [b|].
  - rewrite H. repeat split. discriminate.
  - destruct H as [Hp Hq]. rewrite Hp, Hq. repeat split.
Qed.

Lemma stdin_times_empty (n : nat) :
  forall e, messageQueue e = [] -> messageQueue (snd (stdin_times n e)) = [].
Proof.
  induction n as [|n IH]; intros e Hq; [exact Hq|].
  cbn [stdin_times]. rewrite bind_run, stdin_run, Hq. cbn [stdin_loop fst snd].
  rewrite bind_run.
  specialize (IH (set_messageQueue [] e) eq_refl).
  destruct (stdin_times n (set_messageQueue [] e)) as [[r|err] e2]; exact IH.
Qed.

Lemma stdin_times_run (n : nat) :
  forall e,
    exists e',
      stdin_times n e =
        (Return (List.map Some (firstn n (pending (messageQueue e)))
                   ++ repeat None (n - List.length (pending (messageQueue e)))),
         e') /\
      pending (messageQueue e') = skipn n (pending (messageQueue e)) /\
      (List.length (pending (messageQueue e)) < n -> messageQueue e' = []).
Proof.
  induction n as [|n IH]; intros e.
  - exists e. repeat split. intros H. lia.
  - destruct (stdin_pending e) as (Hout & Hpend & Hempty).
    unfold outcome, after in Hout, Hpend, Hempty.
    cbn [stdin_times]. rewrite bind_run.
    destruct (stdin e) as [r e1]. cbn [fst snd] in Hout, Hpend, Hempty. subst r.
    destruct (IH e1) as (e2 & Hrun & Hp2 & Hq2).
    pose proof (stdin_times_empty n e1) as Hstay.
    rewrite bind_run, Hrun. rewrite Hrun in Hstay. cbn [snd] in Hstay.
    exists e2. rewrite Hpend in Hp2, Hq2 |- *. clear Hrun.
    destruct (pending (messageQueue e)) as [|b p'].
    + cbn [hd_error tl List.length] in *.
      rewrite firstn_nil, skipn_nil in *. rewrite Nat.sub_0_r in *.
      repeat split; auto.
    + cbn [hd_error tl firstn List.map List.length app skipn Nat.sub] in *.
      repeat split; auto. intros H. apply Hq2. lia.
Qed.

(** X1.  Seen through its unread bytes the queue of pending commands is a
    plain byte queue: [sendCommand] appends the bytes of the command and a
    line feed at the back, [stdin] removes and returns the byte at the front,
    and it returns [null] exactly when no byte is left, in which case it
    leaves the queue empty, having dropped every exhausted entry.  Neither
    call throws. *)
Theorem channel_is_a_byte_queue (msg : RetroArchCommand) (e : Emulator) :
  outcome (sendCommand msg) e = Return tt /\
  pending (messageQueue (after (sendCommand msg) e)) =
    pending (messageQueue e) ++ encoder_encode (commandName msg) ++ [Byte.x0a] /\
  outcome stdin e = Return (hd_error (pending (messageQueue e))) /\
  pending (messageQueue (after stdin e)) = tl (pending (messageQueue e)) /\
  (outcome stdin e = Return None <-> pending (messageQueue e) = []) /\
  (outcome stdin e = Return None -> messageQueue (after stdin e) = []).
Proof.
  destruct (stdin_pending e) as (Hout & Hpend & Hempty).
  split; [reflexivity|]. split.
  { unfold after. rewrite sendCommand_run. cbn [snd set_messageQueue messageQueue].
    rewrite pending_app. f_equal. unfold pending. cbn [List.map List.concat].
    unfold unread, wire, encoder_encode. cbn [fst snd skipn].
    rewrite app_nil_r.
    induction (commandName msg) as [|c s IH]; [reflexivity|].
    cbn [append list_ascii_of_string List.map app]. now rewrite IH. }
  split; [exact Hout|]. split; [exact Hpend|].
  assert (Hiff : outcome stdin e = Return None <-> pending (messageQueue e) = []).
  { rewrite Hout. destruct (pending (messageQueue e)); split; intros H;
      try reflexivity; try discriminate. }
  split; [exact Hiff|]. intros H. apply Hempty. now apply Hiff.
Qed.

(** X2.  [n] successive polls return the first [n] unread bytes of the queue
    in order, and [null] for every poll beyond the last byte; the bytes not
    yet polled stay queued in order, and once more polls have been made than
    there were bytes the queue is empty. *)
Theorem polls_drain_the_queue (n : nat) (e : Emulator) :
  outcome (stdin_times n) e =
    Return (List.map Some (firstn n (pending (messageQueue e)))
              ++ repeat None (n - List.length (pending (messageQueue e)))) /\
  pending (messageQueue (after (stdin_times n) e)) =
    skipn n (pending (messageQueue e)) /\
  (List.length (pending (messageQueue e)) < n ->
   messageQueue (after (stdin_times n) e) = []).
Proof.
  destruct (stdin_times_run n e) as (e' & Hrun & Hp & Hq).
  unfold outcome, after. rewrite Hrun. repeat split; assumption.
Qed.

(** No command on the wire is the beginning of another one followed by
    anything. *)
Lemma wire_prefix_free (a b : RetroArchCommand) (r1 r2 : list byte) :
  wire a ++ r1 = wire b ++ r2 -> a = b /\ r1 = r2.
Proof.
  intros H.
  destruct a, b;
    first [ split; [reflexivity|exact (app_inv_head _ _ _ H)]
          | vm_compute in H; discriminate H ].
Qed.

(** X3.  The byte stream determines the commands: two sequences of commands
    that put the same bytes on the wire are the same sequence.  (Every
    command ends with the only line feed it contains.) *)
Theorem wire_is_uniquely_decodable (msgs1 msgs2 : list RetroArchCommand) :
  List.concat (List.map wire msgs1) = List.concat (List.map wire msgs2) ->
  msgs1 = msgs2.
Proof.
  revert msgs2. induction msgs1 as [|a l1 IH]; intros [|b l2] H.
  - reflexivity.
  - destruct b; discriminate H.
  - destruct a; discriminate H.
  - cbn [List.map List.concat] in H.
    destruct (wire_prefix_free _ _ _ _ H) as [-> Hrest].
    f_equal. now apply IH.
Qed.

Lemma wire_is_uniquely_decodable_witness :
  [PAUSE_TOGGLE; RESET] = [PAUSE_TOGGLE; RESET].
Proof.
  exact (@wire_is_uniquely_decodable [PAUSE_TOGGLE; RESET] [PAUSE_TOGGLE; RESET] eq_refl).
Defined.

(** ** The pause state machine over sequences of calls *)

Lemma pauseToggles_app (q1 q2 : list (list byte * nat)) :
  pauseToggles (q1 ++ q2) = pauseToggles q1 + pauseToggles q2.
Proof. unfold pauseToggles. now rewrite filter_app, length_app. Qed.

Lemma press_step (op : PauseOp) (e : Emulator) :
  gameStatus e <> initial ->
  exists added e1,
    press op e = (Return tt, e1) /\
    messageQueue e1 = messageQueue e ++ added /\
    gameStatus e1 <> initial /\
    Nat.odd (pauseToggles added) = negb (sameStatus (gameStatus e1) (gameStatus e)).
Proof.
  intros Hg. destruct e as [o m q g p c]. cbn [gameStatus] in Hg.
  destruct op, g; try congruence;
    unfold press, pause, resume, restart, bind, get, update, ret;
    eexists; eexists; (split; [reflexivity|]); simpl;
    (split;
     [first [ rewrite <- app_assoc; reflexivity
            | reflexivity
            | symmetry; apply app_nil_r ]
     |split; [discriminate|reflexivity]]).
Qed.

Lemma runPause_spec (ops : list PauseOp) :
  forall e,
    gameStatus e <> initial ->
    exists added e',
      runPause ops e = (Return tt, e') /\
      messageQueue e' = messageQueue e ++ added /\
      gameStatus e' <> initial /\
      Nat.odd (pauseToggles added) = negb (sameStatus (gameStatus e') (gameStatus e)).
Proof.
  induction ops as [|op ops IH]; intros e Hg.
  - exists [], e. rewrite app_nil_r. repeat split; auto.
    destruct (gameStatus e); try congruence; reflexivity.
  - destruct (press_step op e Hg) as (a1 & e1 & Hrun1 & Hq1 & Hg1 & Hodd1).
    destruct (IH e1 Hg1) as (a2 & e2 & Hrun2 & Hq2 & Hg2 & Hodd2).
    exists (a1 ++ a2), e2. cbn [runPause]. rewrite bind_run, Hrun1, Hrun2.
    split; [reflexivity|]. split; [rewrite Hq2, Hq1, app_assoc; reflexivity|].
    split; [exact Hg2|].
    rewrite pauseToggles_app, Nat.odd_add, Hodd1, Hodd2.
    destruct (gameStatus e), (gameStatus e1), (gameStatus e2);
      try congruence; reflexivity.
Qed.

(** X4.  Once the game has left the status 'initial', any sequence of
    [pause()], [resume()] and [restart()] calls returns normally, only adds
    commands at the back of the queue, never brings the status back to
    'initial', and has queued an odd number of PAUSE_TOGGLE commands exactly
    when the status at the end differs from the status at the start.  So the
    pause flag of the program, which each PAUSE_TOGGLE flips, follows the
    status. *)
Theorem pause_status_tracks_toggles (ops : list PauseOp) (e : Emulator) :
  gameStatus e <> initial ->
  outcome (runPause ops) e = Return tt /\
  gameStatus (after (runPause ops) e) <> initial /\
  exists added,
    messageQueue (after (runPause ops) e) = messageQueue e ++ added /\
    (Nat.odd (pauseToggles added) = true <->
     gameStatus (after (runPause ops) e) <> gameStatus e).
Proof.
  intros Hg.
  destruct (runPause_spec ops e Hg) as (added & e' & Hrun & Hq & Hg' & Hodd).
  unfold outcome, after. rewrite Hrun. cbn [fst snd].
  split; [reflexivity|]. split; [exact Hg'|].
  exists added. split; [exact Hq|]. rewrite Hodd.
  destruct (gameStatus e'), (gameStatus e); cbn [sameStatus negb];
    split; intros H; try congruence; try reflexivity; try discriminate.
  all: exfalso; apply H; reflexivity.
Qed.

Lemma pause_status_tracks_toggles_witness :
  outcome (runPause [press_pause; press_pause; press_restart; press_pause])
    (launched pong_options) = Return tt /\
  gameStatus (after (runPause [press_pause; press_pause; press_restart; press_pause])
                (launched pong_options)) <> initial /\
  exists added,
    messageQueue (after (runPause [press_pause; press_pause; press_restart; press_pause])
                    (launched pong_options)) =
      messageQueue (launched pong_options) ++ added /\
    (Nat.odd (pauseToggles added) = true <->
     gameStatus (after (runPause [press_pause; press_pause; press_restart; press_pause])
                   (launched pong_options)) <> gameStatus (launched pong_options)).
Proof.
  apply (@pause_status_tracks_toggles
           [press_pause; press_pause; press_restart; press_pause]
           (launched pong_options)).
  discriminate.
Defined.

(** From the status 'initial' the count is off by one: [pause()] sends
    nothing, and the [resume()] that follows sends a toggle. *)
Example pause_then_resume_before_launch :
  messageQueue (after (runPause [press_pause; press_resume]) (constructor pong_options))
    = [toggle] /\
  gameStatus (after (runPause [press_pause; press_resume]) (constructor pong_options))
    = running.
Proof. split; reflexivity. Qed.

(** ** Canonical paths: extensions and missing ROMs *)

(** X5.  When the first ROM's file name has a dot, only what follows the last
    dot is stripped: for a file name [base].[ext] in which [ext] has no dot,
    whatever dots [base] has, the state path ends in [base].state. *)
Theorem stateFileName_strips_last_extension (x : Externals) (e : Emulator)
    (first : Asset) (rest : list Asset) (base ext : string) :
  rom (options e) = first :: rest ->
  fileName first = (base ++ "." ++ ext)%string ->
  includes ext "." = false ->
  lastIndexOf (fileName first) "." = Z.of_nat (String.length base) /\
  stateFileName x e =
    Return (raUserdataDir ++ "states/"
              ++ interpolate (coreFullNameMap x (name (core (options e))))
              ++ "/" ++ base ++ ".state")%string.
Proof.
  intros Hrom Hname Hext.
  assert (Hidx : lastIndexOf (fileName first) "." = Z.of_nat (String.length base)).
  { unfold lastIndexOf. rewrite Hname.
    change ("." ++ ext)%string with (String "." ext).
    rewrite lastIndexOf_from_last_dot by exact Hext. lia. }
  split; [exact Hidx|].
  unfold stateFileName. rewrite Hrom, Hidx, Hname, slice_prefix. reflexivity.
Qed.

Lemma stateFileName_strips_last_extension_witness :
  lastIndexOf "mslug.v2.zip" "." = 8%Z /\
  stateFileName silent_world
    (constructor {| rom := [{| fileName := "mslug.v2.zip"; fileContent := [] |}];
                    bios := [];
                    core := {| name := "fbneo"; js := ""; wasm := [] |};
                    retroarch := [] |}) =
    Return "/home/web_user/retroarch/userdata/states/undefined/mslug.v2.state".
Proof.
  exact (@stateFileName_strips_last_extension silent_world
           (constructor {| rom := [{| fileName := "mslug.v2.zip"; fileContent := [] |}];
                           bios := [];
                           core := {| name := "fbneo"; js := ""; wasm := [] |};
                           retroarch := [] |})
           {| fileName := "mslug.v2.zip"; fileContent := [] |} [] "mslug.v2" "zip"
           eq_refl eq_refl eq_refl).
Defined.

Lemma stateFileName_no_rom (x : Externals) (e : Emulator) :
  rom (options e) = [] ->
  stateFileName x e = Throw no_rom_error /\
  stateThumbnailFileName x e = Throw no_rom_error.
Proof.
  intros H. unfold stateThumbnailFileName, stateFileName. rewrite H.
  split; reflexivity.
Qed.

Lemma clearStateFile_no_rom (x : Externals) (e : Emulator) (h : Emscripten) :
  emscripten e = Some h -> rom (options e) = [] ->
  clearStateFile x e = (Return tt, e).
Proof.
  intros Hh Hrom. unfold clearStateFile.
  rewrite bind_run, (destructure_emscripten_run _ Hh).
  unfold try_catch, bind, getter.
  destruct (stateFileName_no_rom x e Hrom) as [-> _]. reflexivity.
Qed.

(** X6.  Without a ROM the paths cannot be derived.  On an instantiated
    module [clearStateFile] swallows the TypeError and removes nothing;
    [saveState] has queued SAVE_STATE by the time it rejects with the
    TypeError, and it polls nothing; [loadState] rejects with the TypeError
    before it writes or queues anything. *)
Theorem state_operations_without_rom (x : Externals) (blob : Blob)
    (e : Emulator) (h : Emscripten) :
  emscripten e = Some h ->
  rom (options e) = [] ->
  stateFileName x e = Throw no_rom_error /\
  clearStateFile x e = (Return tt, e) /\
  saveState x e =
    (Throw no_rom_error,
     set_messageQueue (messageQueue e ++ [(wire SAVE_STATE, 0)]) e) /\
  loadState x blob e = (Throw no_rom_error, e).
Proof.
  intros Hh Hrom.
  pose proof (clearStateFile_no_rom x e Hh Hrom) as Hclear.
  destruct (stateFileName_no_rom x e Hrom) as [Hs Ht].
  split; [exact Hs|]. split; [exact Hclear|]. split.
  - unfold saveState. rewrite bind_run, Hclear.
    unfold bind at 1. unfold get at 1. rewrite Hh.
    rewrite bind_run, sendCommand_run.
    set (e1 := set_messageQueue _ e).
    assert (Hs1 : stateFileName x e1 = Throw no_rom_error)
      by (apply stateFileName_no_rom; exact Hrom).
    assert (Ht1 : stateThumbnailFileName x e1 = Throw no_rom_error)
      by (apply stateFileName_no_rom; exact Hrom).
    unfold bind, get, Promise_all2, getter.
    destruct (truthy_property _); cbv beta; rewrite Hs1, ?Ht1; reflexivity.
  - unfold loadState. rewrite bind_run, Hclear.
    unfold bind, get, getter. rewrite Hh, Hs. reflexivity.
Qed.

Lemma state_operations_without_rom_witness :
  stateFileName silent_world
    (launched {| rom := []; bios := [];
                 core := {| name := "fceumm"; js := ""; wasm := [] |};
                 retroarch := [] |}) = Throw no_rom_error /\
  clearStateFile silent_world
    (launched {| rom := []; bios := [];
                 core := {| name := "fceumm"; js := ""; wasm := [] |};
                 retroarch := [] |}) =
    (Return tt,
     launched {| rom := []; bios := [];
                 core := {| name := "fceumm"; js := ""; wasm := [] |};
                 retroarch := [] |}) /\
  saveState silent_world
    (launched {| rom := []; bios := [];
                 core := {| name := "fceumm"; js := ""; wasm := [] |};
                 retroarch := [] |}) =
    (Throw no_rom_error,
     set_messageQueue
       (messageQueue
          (launched {| rom := []; bios := [];
                       core := {| name := "fceumm"; js := ""; wasm := [] |};
                       retroarch := [] |}) ++ [(wire SAVE_STATE, 0)])
       (launched {| rom := []; bios := [];
                    core := {| name := "fceumm"; js := ""; wasm := [] |};
                    retroarch := [] |})) /\
  loadState silent_world {| blobParts := Some []; type := "" |}
    (launched {| rom := []; bios := [];
                 core := {| name := "fceumm"; js := ""; wasm := [] |};
                 retroarch := [] |}) =
    (Throw no_rom_error,
     launched {| rom := []; bios := [];
                 core := {| name := "fceumm"; js := ""; wasm := [] |};
                 retroarch := [] |}).
Proof.
  exact (@state_operations_without_rom silent_world
           {| blobParts := Some []; type := "" |}
           (launched {| rom := []; bios := [];
                        core := {| name := "fceumm"; js := ""; wasm := [] |};
                        retroarch := [] |})
           EmscriptenHandle eq_refl eq_refl).
Defined.

(** ** The file poller: success, result and time *)

(** X7.  The poller returns at the first attempt [j] at which the file is
    stable (attempt [j] succeeds with the same non-zero length as the
    successful read before it): it resolves to the bytes of read [j] after
    exactly [j + 1] reads and makes no further call. *)
Theorem poller_returns_at_first_stable_attempt (N : nat)
    (reads : nat -> option (list byte)) (fileName : string)
    (e : Emulator) (h : Emscripten) (j : nat) :
  emscripten e = Some h ->
  j <= N ->
  stableAt reads j = true ->
  (forall i, i < j -> stableAt reads i = false) ->
  outcome (waitForEmscriptenFileN N reads fileName) e = Return (reads j) /\
  calls (after (waitForEmscriptenFileN N reads fileName) e) =
    calls e ++ pollCalls reads fileName 0 (j + 1) /\
  readAttempts (calls (after (waitForEmscriptenFileN N reads fileName) e)) =
    readAttempts (calls e) + (j + 1).
Proof.
  intros Hh Hj Hstable Hfirst.
  destruct (waitForEmscriptenFileN_spec N reads fileName e Hh)
    as (n & Hafter & [(_ & _ & Hnone)|(j' & Hj' & Hn & Hout & Hstable' & Hfirst')]).
  - rewrite Hnone in Hstable by exact Hj. discriminate.
  - assert (j' = j).
    { destruct (Nat.lt_trichotomy j' j) as [Hlt|[Heq|Hgt]]; [|exact Heq|].
      - rewrite Hfirst in Hstable' by exact Hlt. discriminate.
      - rewrite Hfirst' in Hstable by exact Hgt. discriminate. }
    subst j' n. rewrite Hafter, Hout, Nat.add_1_r. cbn [calls add_calls].
    rewrite readAttempts_app, readAttempts_pollCalls. repeat split.
Qed.

Lemma poller_returns_at_first_stable_attempt_witness :
  outcome (waitForEmscriptenFileN 30 growing_file "s.state") (launched pong_options)
    = Return (growing_file 3) /\
  calls (after (waitForEmscriptenFileN 30 growing_file "s.state") (launched pong_options)) =
    calls (launched pong_options) ++ pollCalls growing_file "s.state" 0 (3 + 1) /\
  readAttempts
    (calls (after (waitForEmscriptenFileN 30 growing_file "s.state") (launched pong_options))) =
    readAttempts (calls (launched pong_options)) + (3 + 1).
Proof.
  apply (@poller_returns_at_first_stable_attempt 30 growing_file "s.state"
           (launched pong_options) EmscriptenHandle 3).
  - reflexivity.
  - lia.
  - reflexivity.
  - intros i Hi.
    destruct i as [|[|[|i]]]; [reflexivity|reflexivity|reflexivity|lia].
Defined.

(** X8.  Whatever the poller resolves to is a buffer, never [undefined], and
    it is not empty; and the poller resolves only on an instantiated
    module. *)
Theorem poller_result_is_a_non_empty_buffer (N : nat)
    (reads : nat -> option (list byte)) (fileName : string)
    (e : Emulator) (result : option (list byte)) :
  outcome (waitForEmscriptenFileN N reads fileName) e = Return result ->
  emscripten e <> None /\
  exists bytes, result = Some bytes /\ 0 < List.length bytes.
Proof.
  intros Hout. destruct (emscripten e) as [h|] eqn:Hh.
  - split; [discriminate|].
    destruct (waitForEmscriptenFileN_spec N reads fileName e Hh)
      as (n & _ & [(_ & Hthrow & _)|(j & _ & _ & Hret & Hstable & _)]).
    + rewrite Hthrow in Hout. discriminate.
    + destruct (stableAt_true _ _ Hstable) as (i & a & b & _ & _ & Hb & _ & Hpos & Heq).
      rewrite Hret, Hb in Hout. injection Hout as <-.
      exists b. split; [reflexivity|lia].
  - exfalso. revert Hout.
    unfold outcome, waitForEmscriptenFileN, destructure_emscripten, bind, get.
    rewrite Hh. discriminate.
Qed.

Lemma poller_result_is_a_non_empty_buffer_witness :
  emscripten (launched pong_options) <> None /\
  exists bytes,
    growing_file 3 = Some bytes /\ 0 < List.length bytes.
Proof.
  exact (@poller_result_is_a_non_empty_buffer 30 growing_file "s.state"
           (launched pong_options) (growing_file 3) eq_refl).
Defined.

Lemma delayTime_capped (k : nat) : 4 <= k -> delayTime k = 1000%Z.
Proof.
  intros Hk. unfold delayTime. apply Z.min_r.
  assert (2 ^ 4 <= 2 ^ Z.of_nat k)%Z by (apply Z.pow_le_mono_r; lia).
  change (2 ^ 4)%Z with 16%Z in H. lia.
Qed.

Lemma totalDelay_app (cs1 cs2 : list Call) :
  totalDelay (cs1 ++ cs2) = (totalDelay cs1 + totalDelay cs2)%Z.
Proof.
  induction cs1 as [|c cs1 IH]; [reflexivity|].
  destruct c; cbn [app totalDelay]; rewrite IH; lia.
Qed.

Lemma totalDelay_pollCalls_S (reads : nat -> option (list byte))
    (fileName : string) (k n : nat) :
  totalDelay (pollCalls reads fileName k (S n)) =
  (delayTime k + totalDelay (pollCalls reads fileName (S k) n))%Z.
Proof.
  rewrite pollCalls_S, totalDelay_app. f_equal.
  unfold attemptCalls. destruct (reads k); cbn [totalDelay]; lia.
Qed.

Lemma totalDelay_pollCalls_capped (reads : nat -> option (list byte))
    (fileName : string) (n : nat) :
  forall k, 4 <= k ->
    totalDelay (pollCalls reads fileName k n) = (1000 * Z.of_nat n)%Z.
Proof.
  induction n as [|n IH]; intros k Hk; [reflexivity|].
  rewrite totalDelay_pollCalls_S, IH, delayTime_capped by lia. lia.
Qed.

(** X9.  The waits of the poller are 100, 200, 400 and 800 time units for
    the first four attempts and 1000 for every later one.  A poll that times
    out under a retry ceiling [N] of at least 3 has therefore waited
    1500 + 1000 * ([N] - 3) time units in all, whatever the reads returned:
    28500 for the ceiling 30 of the code. *)
Theorem poller_timeout_takes_28500 (N : nat)
    (reads : nat -> option (list byte)) (fileName : string)
    (e : Emulator) (h : Emscripten) :
  emscripten e = Some h ->
  3 <= N ->
  (forall j, j <= N -> stableAt reads j = false) ->
  List.map delayTime [0; 1; 2; 3] = [100; 200; 400; 800]%Z /\
  (forall k, 4 <= k -> delayTime k = 1000%Z) /\
  outcome (waitForEmscriptenFileN N reads fileName) e = Throw (Error "fs timeout") /\
  totalDelay (calls (after (waitForEmscriptenFileN N reads fileName) e)) =
    (totalDelay (calls e) + 1500 + 1000 * (Z.of_nat N - 3))%Z /\
  (N = maxRetries ->
   totalDelay (calls (after (waitForEmscriptenFileN N reads fileName) e)) =
     (totalDelay (calls e) + 28500)%Z).
Proof.
  intros Hh HN Hnever.
  split; [reflexivity|]. split; [exact delayTime_capped|].
  destruct (waitForEmscriptenFileN_spec N reads fileName e Hh)
    as (n & Hafter & [(Hn & Hout & _)|(j & Hj & _ & _ & Hstable & _)]).
  - assert (Htotal :
      totalDelay (calls (after (waitForEmscriptenFileN N reads fileName) e)) =
        (totalDelay (calls e) + 1500 + 1000 * (Z.of_nat N - 3))%Z).
    { rewrite Hafter. cbn [calls add_calls]. rewrite totalDelay_app. subst n.
      replace (S N) with (S (S (S (S (N - 3))))) by lia.
      rewrite !totalDelay_pollCalls_S, totalDelay_pollCalls_capped by lia.
      change (delayTime 0) with 100%Z. change (delayTime 1) with 200%Z.
      change (delayTime 2) with 400%Z. change (delayTime 3) with 800%Z. lia. }
    split; [exact Hout|]. split; [exact Htotal|].
    intros HNmax. rewrite Htotal, HNmax. unfold maxRetries. lia.
  - rewrite Hnever in Hstable by exact Hj. discriminate.
Qed.

Lemma poller_timeout_takes_28500_witness :
  List.map delayTime [0; 1; 2; 3] = [100; 200; 400; 800]%Z /\
  (forall k, 4 <= k -> delayTime k = 1000%Z) /\
  outcome (waitForEmscriptenFileN 30 never_there "s.state") (launched pong_options)
    = Throw (Error "fs timeout") /\
  totalDelay
    (calls (after (waitForEmscriptenFileN 30 never_there "s.state") (launched pong_options))) =
    (totalDelay (calls (launched pong_options)) + 1500 + 1000 * (Z.of_nat 30 - 3))%Z /\
  (30 = maxRetries ->
   totalDelay
     (calls (after (waitForEmscriptenFileN 30 never_there "s.state") (launched pong_options))) =
     (totalDelay (calls (launched pong_options)) + 28500)%Z).
Proof.
  apply (@poller_timeout_takes_28500 30 never_there "s.state"
           (launched pong_options) EmscriptenHandle).
  - reflexivity.
  - lia.
  - intros j _. reflexivity.
Defined.

(** ** Saving and loading a state *)

Lemma get_run {A B} (field : Emulator -> A) (k : A -> M B) (e : Emulator) :
  bind (get field) k e = k (field e) e.
Proof. reflexivity. Qed.

Lemma getter_run {A B} (g : Emulator -> Completion A) (k : A -> M B) (e : Emulator) :
  bind (getter g) k e =
  match g e with
  | Return a => k a e
  | Throw err => (Throw err, e)
  end.
Proof. reflexivity. Qed.

Lemma update_run {B} (f : Emulator -> Emulator) (k : unit -> M B) (e : Emulator) :
  bind (update f) k e = k tt (f e).
Proof. reflexivity. Qed.

(** With the module instantiated [clearStateFile] returns normally and all
    it does is try to remove files. *)
Lemma clearStateFile_unlinks (x : Externals) (e : Emulator) (h : Emscripten) :
  emscripten e = Some h ->
  exists cs, Forall isUnlink cs /\ clearStateFile x e = (Return tt, add_calls cs e).
Proof.
  intros H.
  unfold clearStateFile. rewrite bind_run, (destructure_emscripten_run _ H).
  unfold try_catch, bind, getter, stateThumbnailFileName, FS_unlink_call.
  destruct (stateFileName x e) as [path|err] eqn:Hpath.
  - destruct (FS_unlink_throws x (calls e) path).
    + exists [FS_unlink path]. split; [repeat constructor|reflexivity].
    + assert (Hsame : stateFileName x (log_call (FS_unlink path) e) = Return path)
        by exact Hpath.
      rewrite Hsame.
      exists [FS_unlink path; FS_unlink (path ++ ".png")%string].
      split; [repeat constructor|].
      destruct (FS_unlink_throws x _ _);
        unfold add_calls, log_call; simpl; rewrite <- app_assoc; reflexivity.
  - exists []. split; [constructor|]. now rewrite add_calls_nil.
Qed.





(** [saveState] with thumbnails enabled, up to the await of the two polls:
    by then the stale files have been removed, SAVE_STATE is queued and both
    polls have set their first timer. *)
Lemma saveState_thumbnail_run (x : Externals) (e : Emulator)
    (h : Emscripten) (path : string) :
  emscripten e = Some h ->
  stateFileName x e = Return path ->
  truthy_property
    (property (retroarch (options e)) "savestate_thumbnail_enable") = true ->
  exists cs1,
    saveState_start x e =
      (Return tt,
       log_call (delay 100)
         (log_call (delay 100)
            (set_messageQueue (messageQueue e ++ [(wire SAVE_STATE, 0)])
               (add_calls cs1 e)))) /\
    saveState x e =
      bind (Promise_all2 (S maxRetries) maxRetries
              (FS_readFile_result x path) path
              (FS_readFile_result x (path ++ ".png")) (path ++ ".png")
              (Suspended pollInitial) (Suspended pollInitial))
        (fun both =>
           bind (clearStateFile x)
             (fun _ =>
                ret (Some {| state := octet_stream (fst both);
                             thumbnail :=
                               match snd both with
                               | Some b => Some (octet_stream (Some b))
                               | None => None
                               end |})))
        (log_call (delay 100)
           (log_call (delay 100)
              (set_messageQueue (messageQueue e ++ [(wire SAVE_STATE, 0)])
                 (add_calls cs1 e)))).
Proof.
  intros Hh Hpath Hon.
  destruct (clearStateFile_unlinks x e Hh) as (cs1 & _ & Hclear1).
  exists cs1.
  set (e1 := add_calls cs1 e) in *.
  set (e2 := set_messageQueue (messageQueue e ++ [(wire SAVE_STATE, 0)]) e1).
  set (e3 := log_call (delay 100) e2).
  assert (Hh2 : emscripten e2 = Some h) by exact Hh.
  assert (Hh3 : emscripten e3 = Some h) by exact Hh.
  assert (Hthumb : forall e', options e' = options e ->
            stateThumbnailFileName x e' = Return (path ++ ".png")%string).
  { intros e' He'. unfold stateThumbnailFileName.
    replace (stateFileName x e') with (stateFileName x e)
      by (unfold stateFileName; now rewrite He').
    now rewrite Hpath. }
  split.
  { unfold saveState_start. rewrite bind_run, Hclear1. fold e1.
    rewrite get_run. change (emscripten e1) with (emscripten e). rewrite Hh.
    rewrite bind_run, sendCommand_run.
    change (set_messageQueue (messageQueue e1 ++ [(wire SAVE_STATE, 0)]) e1) with e2.
    rewrite get_run. change (options e2) with (options e). rewrite Hon.
    rewrite getter_run.
    change (stateFileName x e2) with (stateFileName x e). rewrite Hpath.
    rewrite bind_run, (pollStart_run _ _ Hh2). fold e3.
    rewrite getter_run, (Hthumb e3) by reflexivity.
    rewrite bind_run, (pollStart_run _ _ Hh3). reflexivity. }
  unfold saveState. rewrite bind_run, Hclear1. fold e1.
  rewrite get_run. change (emscripten e1) with (emscripten e). rewrite Hh.
  rewrite bind_run, sendCommand_run.
  change (set_messageQueue (messageQueue e1 ++ [(wire SAVE_STATE, 0)]) e1) with e2.
  rewrite get_run. change (options e2) with (options e). rewrite Hon.
  rewrite bind_run, getter_run.
  change (stateFileName x e2) with (stateFileName x e). rewrite Hpath.
  rewrite bind_run, (pollStart_run _ _ Hh2). fold e3.
  rewrite getter_run, (Hthumb e3) by reflexivity.
  rewrite bind_run, (pollStart_run _ _ Hh3).
  rewrite !bind_run.
  destruct (Promise_all2 _ _ _ _ _ _ _ _ _) as [[both|err] e5]; [|reflexivity].
  cbn [ret fst snd]. rewrite bind_run.
  destruct (clearStateFile x e5) as [[u|err] e6]; reflexivity.
Qed.

(** X11.  [saveState()] with thumbnails enabled, on an instantiated module
    with a ROM, polls the state file and the thumbnail file, which is the
    state path followed by .png.  It resolves, to the bytes of both, only if
    both become stable; if either of them never does, it rejects with fs
    timeout, even when the other file was read in full.  SAVE_STATE is queued
    in every case. *)
Theorem saveState_with_thumbnail (x : Externals) (e : Emulator)
    (h : Emscripten) (path : string) :
  emscripten e = Some h ->
  stateFileName x e = Return path ->
  truthy_property
    (property (retroarch (options e)) "savestate_thumbnail_enable") = true ->
  messageQueue (after (saveState x) e) = messageQueue e ++ [(wire SAVE_STATE, 0)] /\
  ((forall j, j <= maxRetries ->
      stableAt (FS_readFile_result x (path ++ ".png")) j = false) ->
   outcome (saveState x) e = Throw (Error "fs timeout")) /\
  ((forall j, j <= maxRetries -> stableAt (FS_readFile_result x path) j = false) ->
   outcome (saveState x) e = Throw (Error "fs timeout")) /\
  (forall js jt,
      js <= maxRetries ->
      stableAt (FS_readFile_result x path) js = true ->
      (forall i, i < js -> stableAt (FS_readFile_result x path) i = false) ->
      jt <= maxRetries ->
      stableAt (FS_readFile_result x (path ++ ".png")) jt = true ->
      (forall i, i < jt -> stableAt (FS_readFile_result x (path ++ ".png")) i = false) ->
      exists stateBytes thumbnailBytes,
        FS_readFile_result x path js = Some stateBytes /\
        FS_readFile_result x (path ++ ".png") jt = Some thumbnailBytes /\
        outcome (saveState x) e =
          Return (Some {| state := octet_stream (Some stateBytes);
                          thumbnail := Some (octet_stream (Some thumbnailBytes)) |})).
Proof.
  intros Hh Hpath Hon.
  destruct (saveState_thumbnail_run x e Hh Hpath Hon) as (cs1 & _ & Hrun).
  set (e4 := log_call _ (log_call _ (set_messageQueue _ (add_calls cs1 e)))) in *.
  destruct (@Promise_all2_run maxRetries
              (FS_readFile_result x path) path
              (FS_readFile_result x (path ++ ".png")) (path ++ ".png")
              (S maxRetries) (Suspended pollInitial) (Suspended pollInitial) e4 I I)
    as [cs Hall].
  destruct (settlesTo_started maxRetries (FS_readFile_result x path))
    as [HnoneS HsomeS].
  destruct (settlesTo_started maxRetries (FS_readFile_result x (path ++ ".png")))
    as [HnoneT HsomeT].
  assert (Hh5 : emscripten (add_calls cs e4) = Some h) by exact Hh.
  destruct (clearStateFile_unlinks x (add_calls cs e4) Hh5) as (cs2 & _ & Hclear2).
  unfold after, outcome. rewrite Hrun, bind_run, Hall.
  destruct (settlesTo (S maxRetries) maxRetries (FS_readFile_result x path)
              (Suspended pollInitial)) as [vs|errS] eqn:HS;
    destruct (settlesTo (S maxRetries) maxRetries
                (FS_readFile_result x (path ++ ".png"))
                (Suspended pollInitial)) as [vt|errT] eqn:HT;
    cbn [bothSettle]; rewrite ?bind_run, ?Hclear2; cbn [fst snd ret];
    (split; [reflexivity|]).
  - split; [intros Hnever; specialize (HnoneT Hnever); discriminate|].
    split; [intros Hnever; specialize (HnoneS Hnever); discriminate|].
    intros js jt Hjs Hs Hfs Hjt Ht Hft.
    specialize (HsomeS js Hjs Hs Hfs). specialize (HsomeT jt Hjt Ht Hft).
    destruct (stableAt_true _ _ Hs) as (i & a & sb & _ & _ & Hsb & _).
    destruct (stableAt_true _ _ Ht) as (i' & a' & tb & _ & _ & Htb & _).
    exists sb, tb. split; [exact Hsb|]. split; [exact Htb|].
    rewrite Hsb in HsomeS. rewrite Htb in HsomeT.
    injection HsomeS as ->. injection HsomeT as ->. reflexivity.
  - split; [reflexivity|]. split; [reflexivity|].
    intros js jt Hjs Hs Hfs Hjt Ht Hft.
    specialize (HsomeT jt Hjt Ht Hft). discriminate.
  - split; [reflexivity|]. split; [reflexivity|].
    intros js jt Hjs Hs Hfs Hjt Ht Hft.
    specialize (HsomeS js Hjs Hs Hfs). discriminate.
  - split; [reflexivity|]. split; [reflexivity|].
    intros js jt Hjs Hs Hfs Hjt Ht Hft.
    specialize (HsomeS js Hjs Hs Hfs). discriminate.
Qed.

(** The calls of a save with thumbnails when every read sees the same two
    bytes: the removals, the two first timers, then the reads of the two
    files in turns, and the removals again. *)
Example saveState_polls_in_turns :
  calls (after (saveState steady_world) (launched (thumbnail_options true))) =
  [FS_unlink "/home/web_user/retroarch/userdata/states/FCEUmm/pong1k.state";
   FS_unlink "/home/web_user/retroarch/userdata/states/FCEUmm/pong1k.state.png";
   delay 100; delay 100;
   FS_readFile "/home/web_user/retroarch/userdata/states/FCEUmm/pong1k.state";
   delay 200;
   FS_readFile "/home/web_user/retroarch/userdata/states/FCEUmm/pong1k.state.png";
   delay 200;
   FS_readFile "/home/web_user/retroarch/userdata/states/FCEUmm/pong1k.state";
   FS_readFile "/home/web_user/retroarch/userdata/states/FCEUmm/pong1k.state.png";
   FS_unlink "/home/web_user/retroarch/userdata/states/FCEUmm/pong1k.state";
   FS_unlink "/home/web_user/retroarch/userdata/states/FCEUmm/pong1k.state.png"].
Proof. reflexivity. Qed.

Lemma saveState_with_thumbnail_witness :
  messageQueue (after (saveState steady_world) (launched (thumbnail_options true))) =
    [(wire SAVE_STATE, 0)] /\
  outcome (saveState steady_world) (launched (thumbnail_options true)) =
    Return (Some {| state := octet_stream (Some [Byte.x01; Byte.x02]);
                    thumbnail := Some (octet_stream (Some [Byte.x01; Byte.x02])) |}).
Proof.
  destruct (@saveState_with_thumbnail steady_world
              (launched (thumbnail_options true)) EmscriptenHandle
              "/home/web_user/retroarch/userdata/states/FCEUmm/pong1k.state"
              eq_refl eq_refl eq_refl)
    as (Hq & _ & _ & Hboth).
  split; [exact Hq|].
  assert (Hle : 1 <= maxRetries) by (unfold maxRetries; lia).
  assert (Hfirst : forall p i, i < 1 ->
            stableAt (FS_readFile_result steady_world p) i = false).
  { intros p i Hi. assert (i = 0) by lia. subst i. reflexivity. }
  destruct (Hboth 1 1 Hle eq_refl (Hfirst _) Hle eq_refl (Hfirst _))
    as (sb & tb & Hsb & Htb & Hout).
  injection Hsb as <-. injection Htb as <-. exact Hout.
Defined.



(** *** The asynchronous calls as the sequence of their stretches *)

(** [saveState()] without thumbnails leaves the object as its stretches do
    when they run one after the other with nothing in between: the start,
    the timers of the poll, the end. *)
Lemma saveState_between_awaits (x : Externals) (e : Emulator)
    (h : Emscripten) (path : string) :
  emscripten e = Some h ->
  stateFileName x e = Return path ->
  truthy_property
    (property (retroarch (options e)) "savestate_thumbnail_enable") = false ->
  after (saveState x) e =
  after (saveState_start x ;;
         pollAwait (S maxRetries) maxRetries (FS_readFile_result x path) path
           (Suspended pollInitial) ;;
         saveState_finish x) e.
Proof.
  intros Hh Hpath Hoff.
  destruct (clearStateFile_unlinks x e Hh) as (cs1 & _ & Hclear1).
  set (e1 := add_calls cs1 e) in *.
  set (e2 := set_messageQueue (messageQueue e1 ++ [(wire SAVE_STATE, 0)]) e1).
  assert (Hh2 : emscripten e2 = Some h) by exact Hh.
  assert (Hstart : saveState_start x e = (Return tt, log_call (delay 100) e2)).
  { unfold saveState_start. rewrite bind_run, Hclear1. fold e1.
    rewrite get_run. change (emscripten e1) with (emscripten e). rewrite Hh.
    rewrite bind_run, sendCommand_run. fold e2.
    rewrite get_run. change (options e2) with (options e). rewrite Hoff.
    rewrite getter_run. change (stateFileName x e2) with (stateFileName x e).
    rewrite Hpath, bind_run, (pollStart_run _ _ Hh2). reflexivity. }
  unfold after. rewrite (bind_run (saveState_start x)), Hstart.
  unfold saveState. rewrite bind_run, Hclear1. fold e1.
  rewrite get_run. change (emscripten e1) with (emscripten e). rewrite Hh.
  rewrite bind_run, sendCommand_run. fold e2.
  rewrite get_run. change (options e2) with (options e). rewrite Hoff.
  rewrite bind_run, getter_run.
  change (stateFileName x e2) with (stateFileName x e). rewrite Hpath.
  unfold waitForEmscriptenFile. rewrite !bind_run.
  rewrite waitForEmscriptenFileN_between_awaits, bind_run, (pollStart_run _ _ Hh2).
  unfold saveState_finish.
  destruct (pollAwait _ _ _ _ _ _) as [[bytes|err] e4]; [|reflexivity].
  cbn [ret]. rewrite bind_run.
  destruct (clearStateFile x e4) as [[u|err] e5]; reflexivity.
Qed.

(** The same with thumbnails: the start, the rounds of timers of the two
    polls, the end. *)
Lemma saveState_with_thumbnail_between_awaits (x : Externals) (e : Emulator)
    (h : Emscripten) (path : string) :
  emscripten e = Some h ->
  stateFileName x e = Return path ->
  truthy_property
    (property (retroarch (options e)) "savestate_thumbnail_enable") = true ->
  after (saveState x) e =
  after (saveState_start x ;;
         Promise_all2 (S maxRetries) maxRetries
           (FS_readFile_result x path) path
           (FS_readFile_result x (path ++ ".png")) (path ++ ".png")
           (Suspended pollInitial) (Suspended pollInitial) ;;
         saveState_finish x) e.
Proof.
  intros Hh Hpath Hon.
  destruct (saveState_thumbnail_run x e Hh Hpath Hon) as (cs1 & Hstart & Hrun).
  unfold after. rewrite Hrun, (bind_run (saveState_start x)), Hstart, !bind_run.
  unfold saveState_finish.
  destruct (Promise_all2 _ _ _ _ _ _ _ _ _) as [[both|err] e5]; [|reflexivity].
  rewrite bind_run. destruct (clearStateFile x e5) as [[u|err] e6]; reflexivity.
Qed.

(** [loadState(blob)] leaves the object as its stretches do when they run
    one after the other with nothing in between. *)
Lemma loadState_between_awaits (x : Externals) (blob : Blob) (e : Emulator)
    (h : Emscripten) (path : string) :
  emscripten e = Some h ->
  stateFileName x e = Return path ->
  after (loadState x blob) e =
  after (loadState_start x ;;
         loadState_write x blob ;;
         pollAwait (S maxRetries) maxRetries (FS_readFile_result x path) path
           (Suspended pollInitial) ;;
         loadState_finish) e.
Proof.
  intros Hh Hpath.
  destruct (clearStateFile_unlinks x e Hh) as (cs1 & _ & Hclear1).
  set (e1 := add_calls cs1 e) in *.
  set (e2 := log_call (FS_writeFile path (Binary (blobToBuffer x blob))) e1).
  assert (Hh2 : emscripten e2 = Some h) by exact Hh.
  assert (Hwrite : loadState_write x blob e1 = (Return tt, log_call (delay 100) e2)).
  { unfold loadState_write. rewrite getter_run.
    change (stateFileName x e1) with (stateFileName x e).
    rewrite Hpath, update_run. fold e2. rewrite getter_run.
    change (stateFileName x e2) with (stateFileName x e).
    rewrite Hpath, bind_run, (pollStart_run _ _ Hh2). reflexivity. }
  unfold after, loadState_start, loadState_finish.
  rewrite (bind_run (clearStateFile x)), Hclear1, (bind_run (loadState_write x blob)),
    Hwrite.
  unfold loadState. rewrite bind_run, Hclear1. fold e1.
  rewrite get_run. change (emscripten e1) with (emscripten e). rewrite Hh.
  rewrite getter_run. change (stateFileName x e1) with (stateFileName x e).
  rewrite Hpath, update_run. fold e2.
  rewrite getter_run. change (stateFileName x e2) with (stateFileName x e).
  rewrite Hpath. unfold waitForEmscriptenFile.
  rewrite !bind_run, waitForEmscriptenFileN_between_awaits, bind_run.
  rewrite (pollStart_run _ _ Hh2).
  destruct (pollAwait _ _ _ _ _ _) as [[bytes|err] e4]; reflexivity.
Qed.

(** ** The configuration object after it has been written *)

Lemma property_map_Str (f : Scalar -> string) (config : list (string * Scalar))
    (key : string) :
  property (List.map (fun kv => (fst kv, Str (f (snd kv)))) config) key =
  match property config key with
  | Some v => Some (Str (f v))
  | None => None
  end.
Proof.
  induction config as [|[k v] config IH]; [reflexivity|].
  cbn [List.map property fst snd]. destruct (String.eqb k key); [reflexivity|exact IH].
Qed.

Lemma setupRaConfigFile_run (x : Externals) (e : Emulator) (h : Emscripten) :
  emscripten e = Some h ->
  exists cs,
    setupRaConfigFile x e =
      (Return tt,
       set_options
         {| rom := rom (options e); bios := bios (options e);
            core := core (options e);
            retroarch :=
              List.map
                (fun kv => (fst kv, Str ("__" ++ ToString (snd kv) ++ "__")%string))
                (retroarch (options e)) |}
         (add_calls cs e)).
Proof.
  intros Hh. unfold setupRaConfigFile. rewrite get_run.
  unfold writeConfigFile at 1.
  rewrite bind_run, bind_run, (destructure_emscripten_run _ Hh).
  unfold bind, update, ret. cbn [fst snd].
  eexists. unfold wrapValues. rewrite List.map_map. cbn [fst snd].
  unfold set_options, add_calls, log_call. cbn. rewrite <- app_assoc.
  reflexivity.
Qed.

(** X13.  [setupRaConfigFile()] hands [this.options.retroarch] itself to
    [writeConfigFile], which overwrites every value with its wrapped string.
    So once the configuration has been written, every entry of the options
    holds the string __value__ in place of its value, and every such entry is
    truthy, whatever it was: a switch that was [false] or [0] now tests as
    true.  Before the module is instantiated the call throws and the options
    are left alone. *)
Theorem setupRaConfigFile_wraps_the_options (x : Externals) (e : Emulator) :
  (emscripten e = None ->
   setupRaConfigFile x e = (Throw destructure_error, e)) /\
  (emscripten e <> None ->
   outcome (setupRaConfigFile x) e = Return tt /\
   retroarch (options (after (setupRaConfigFile x) e)) =
     List.map
       (fun kv => (fst kv, Str ("__" ++ ToString (snd kv) ++ "__")%string))
       (retroarch (options e)) /\
   forall key v,
     property (retroarch (options e)) key = Some v ->
     property (retroarch (options (after (setupRaConfigFile x) e))) key =
       Some (Str ("__" ++ ToString v ++ "__")%string) /\
     truthy_property
       (property (retroarch (options (after (setupRaConfigFile x) e))) key) = true).
Proof.
  split.
  - intros Hnone.
    unfold setupRaConfigFile, writeConfigFile, destructure_emscripten, bind, get.
    now rewrite Hnone.
  - intros Hsome. destruct (emscripten e) as [h|] eqn:Hh; [|congruence].
    destruct (setupRaConfigFile_run x e Hh) as (cs & Hrun).
    unfold outcome, after. rewrite Hrun. cbn [fst snd options set_options retroarch].
    split; [reflexivity|]. split; [reflexivity|].
    intros key v Hv.
    rewrite (property_map_Str (fun v => ("__" ++ ToString v ++ "__")%string)), Hv.
    split; reflexivity.
Qed.

(** X14.  The switch savestate_thumbnail_enable stops working once the
    configuration has been written.  With the switch set to [false] in the
    options, [saveState()] called after [setupRaConfigFile()] still waits for
    the thumbnail file, and rejects with fs timeout when that file never
    becomes stable, whether or not the state file does. *)
Theorem thumbnail_switch_is_lost_after_setup (x : Externals) (e : Emulator)
    (h : Emscripten) (path : string) :
  emscripten e = Some h ->
  stateFileName x e = Return path ->
  property (retroarch (options e)) "savestate_thumbnail_enable" = Some (Bool false) ->
  (forall j, j <= maxRetries ->
     stableAt (FS_readFile_result x (path ++ ".png")) j = false) ->
  outcome (setupRaConfigFile x ;; saveState x) e = Throw (Error "fs timeout").
Proof.
  intros Hh Hpath Hoff Hnever.
  destruct (setupRaConfigFile_run x e Hh) as (cs & Hsetup).
  unfold outcome. rewrite bind_run, Hsetup.
  set (e' := set_options _ (add_calls cs e)).
  assert (Hh' : emscripten e' = Some h) by exact Hh.
  assert (Hpath' : stateFileName x e' = Return path) by exact Hpath.
  assert (Hon : truthy_property
                  (property (retroarch (options e')) "savestate_thumbnail_enable") = true).
  { cbn [e' options set_options retroarch].
    rewrite (property_map_Str (fun v => ("__" ++ ToString v ++ "__")%string)), Hoff.
    reflexivity. }
  destruct (saveState_thumbnail_run x e' Hh' Hpath' Hon) as (cs1 & _ & Hrun).
  rewrite Hrun, bind_run.
  set (e4 := log_call _ (log_call _ (set_messageQueue _ (add_calls cs1 e')))).
  destruct (@Promise_all2_run maxRetries
              (FS_readFile_result x path) path
              (FS_readFile_result x (path ++ ".png")) (path ++ ".png")
              (S maxRetries) (Suspended pollInitial) (Suspended pollInitial) e4 I I)
    as [cs' Hall].
  destruct (settlesTo_started maxRetries (FS_readFile_result x (path ++ ".png")))
    as [HnoneT _].
  rewrite Hall, (HnoneT Hnever), bothSettle_throw_r. reflexivity.
Qed.

(** ** What the operations leave alone *)

Section Keeps.

Context {B : Type} (field : Emulator -> B).
Hypothesis field_log : forall c e, field (log_call c e) = field e.
Hypothesis field_queue : forall q e, field (set_messageQueue q e) = field e.
Hypothesis field_status : forall g e, field (set_gameStatus g e) = field e.
Hypothesis field_mark : forall p e, field (set_processStatus p e) = field e.

Lemma keeps_ret {A} (a : A) : keeps field (ret a).
Proof. intros e. reflexivity. Qed.

Lemma keeps_throw {A} (err : Exception) : keeps field (@throw A err).
Proof. intros e. reflexivity. Qed.

Lemma keeps_get {A} (f : Emulator -> A) : keeps field (get f).
Proof. intros e. reflexivity. Qed.

Lemma keeps_getter {A} (g : Emulator -> Completion A) : keeps field (getter g).
Proof. intros e. reflexivity. Qed.

Lemma keeps_update (f : Emulator -> Emulator) :
  (forall e, field (f e) = field e) -> keeps field (update f).
Proof. intros H e. apply H. Qed.

Lemma keeps_bind {A C} (m : M A) (k : A -> M C) :
  keeps field m -> (forall a, keeps field (k a)) -> keeps field (bind m k).
Proof.
  intros Hm Hk e. unfold bind. specialize (Hm e).
  destruct (m e) as [[a|err] e1]; cbn [snd] in *; [|exact Hm].
  rewrite Hk. exact Hm.
Qed.

Lemma keeps_try_catch (body : M unit) : keeps field body -> keeps field (try_catch body).
Proof.
  intros Hb e. unfold try_catch. specialize (Hb e).
  destruct (body e) as [[a|err] e1]; exact Hb.
Qed.

Lemma keeps_FS_unlink_call (x : Externals) (path : string) :
  keeps field (FS_unlink_call x path).
Proof.
  intros e. unfold FS_unlink_call.
  destruct (FS_unlink_throws x (calls e) path); apply field_log.
Qed.

Ltac keeps_step :=
  match goal with
  | |- keeps _ (bind _ _) => apply keeps_bind; [|intros ?]
  | |- keeps _ (ret _) => apply keeps_ret
  | |- keeps _ (throw _) => apply keeps_throw
  | |- keeps _ (get _) => apply keeps_get
  | |- keeps _ (getter _) => apply keeps_getter
  | |- keeps _ (update _) =>
      apply keeps_update; intros ?;
      first [apply field_log | apply field_queue | apply field_status
            | apply field_mark]
  | |- keeps _ (try_catch _) => apply keeps_try_catch
  | |- keeps _ (FS_unlink_call _ _) => apply keeps_FS_unlink_call
  | |- keeps _ (match ?v with _ => _ end) => destruct v
  end.

Lemma keeps_sendCommand (msg : RetroArchCommand) : keeps field (sendCommand msg).
Proof. unfold sendCommand. repeat keeps_step. Qed.

Lemma keeps_stdin : keeps field stdin.
Proof. unfold stdin. repeat keeps_step. Qed.

Lemma keeps_resume : keeps field resume.
Proof. unfold resume. repeat first [apply keeps_sendCommand | keeps_step]. Qed.

Lemma keeps_pause : keeps field pause.
Proof. unfold pause. repeat first [apply keeps_sendCommand | keeps_step]. Qed.

Lemma keeps_restart : keeps field restart.
Proof.
  unfold restart. apply keeps_bind; [apply keeps_sendCommand|].
  intros _. apply keeps_resume.
Qed.

Lemma keeps_destructure_emscripten : keeps field destructure_emscripten.
Proof. unfold destructure_emscripten. repeat keeps_step. Qed.

Lemma keeps_resize (width height : Z) : keeps field (resize width height).
Proof.
  unfold resize. repeat first [apply keeps_destructure_emscripten | keeps_step].
Qed.

Lemma keeps_pollLoop (N : nat) (reads : nat -> option (list byte)) (fileName : string) :
  forall fuel st, keeps field (pollLoop fuel N reads fileName st).
Proof.
  induction fuel as [|fuel IH]; intros st; cbn [pollLoop];
    destruct (pollAgain N st); try apply keeps_ret.
  apply keeps_bind; [unfold pollOnce; repeat keeps_step|]. intros st'. apply IH.
Qed.

Lemma keeps_waitForEmscriptenFile (x : Externals) (fileName : string) :
  keeps field (waitForEmscriptenFile x fileName).
Proof.
  unfold waitForEmscriptenFile, waitForEmscriptenFileN.
  apply keeps_bind; [apply keeps_destructure_emscripten|]. intros _.
  apply keeps_bind; [apply keeps_pollLoop|]. intros st.
  destruct (negb (isFinished st)); [apply keeps_throw|apply keeps_ret].
Qed.

Lemma keeps_clearStateFile (x : Externals) : keeps field (clearStateFile x).
Proof.
  unfold clearStateFile.
  repeat first [apply keeps_destructure_emscripten | keeps_step].
Qed.

Lemma keeps_pollSuspend (N : nat) (st : PollState) : keeps field (pollSuspend N st).
Proof.
  unfold pollSuspend. destruct (pollAgain N st); [repeat keeps_step|].
  destruct (negb (isFinished st)); apply keeps_ret.
Qed.

Lemma keeps_pollStart (N : nat) : keeps field (pollStart N).
Proof. unfold pollStart. repeat first [apply keeps_pollSuspend | keeps_step]. Qed.

Lemma keeps_pollResume (N : nat) (reads : nat -> option (list byte))
    (fileName : string) (st : PollState) :
  keeps field (pollResume N reads fileName st).
Proof. unfold pollResume. repeat first [apply keeps_pollSuspend | keeps_step]. Qed.

Lemma keeps_timerFires (N : nat) (reads : nat -> option (list byte))
    (fileName : string) (p : Polling) :
  keeps field (timerFires N reads fileName p).
Proof.
  destruct p; cbn [timerFires]; first [apply keeps_pollResume | apply keeps_ret].
Qed.

Lemma keeps_Promise_all2 (N : nat)
    (readsA : nat -> option (list byte)) (fileA : string)
    (readsB : nat -> option (list byte)) (fileB : string) :
  forall fuel a b, keeps field (Promise_all2 fuel N readsA fileA readsB fileB a b).
Proof.
  induction fuel as [|fuel IH]; intros a b;
    destruct a, b; cbn [Promise_all2];
    try apply keeps_ret; try apply keeps_throw;
    (apply keeps_bind;
       [ apply keeps_timerFires
       | intros a'; destruct a'; try apply keeps_throw;
         (apply keeps_bind; [apply keeps_timerFires | intros b'; apply IH]) ]).
Qed.

Lemma keeps_saveState (x : Externals) : keeps field (saveState x).
Proof.
  unfold saveState.
  repeat first [ apply keeps_clearStateFile | apply keeps_sendCommand
               | apply keeps_waitForEmscriptenFile | apply keeps_pollStart
               | apply keeps_Promise_all2 | keeps_step ].
Qed.

Lemma keeps_saveState_start (x : Externals) : keeps field (saveState_start x).
Proof.
  unfold saveState_start.
  repeat first [ apply keeps_clearStateFile | apply keeps_sendCommand
               | apply keeps_pollStart | keeps_step ].
Qed.

Lemma keeps_loadState_write (x : Externals) (blob : Blob) :
  keeps field (loadState_write x blob).
Proof.
  unfold loadState_write. repeat first [apply keeps_pollStart | keeps_step].
Qed.

Lemma keeps_loadState (x : Externals) (blob : Blob) : keeps field (loadState x blob).
Proof.
  unfold loadState.
  repeat first [ apply keeps_clearStateFile | apply keeps_sendCommand
               | apply keeps_waitForEmscriptenFile | keeps_step ].
Qed.

Lemma keeps_perform (x : Externals) (op : Operation) : keeps field (perform x op).
Proof.
  destruct op; unfold perform;
    repeat first [ apply keeps_pause | apply keeps_resume | apply keeps_restart
                 | apply keeps_saveState | apply keeps_loadState
                 | apply keeps_resize | apply keeps_sendCommand | keeps_step ].
Qed.

Lemma keeps_exit (statusCode : Z) : keeps field (exit statusCode).
Proof. unfold exit, cleanupDOM. repeat keeps_step. Qed.

End Keeps.

(** X15.  No operation of the controller, nor [exit], nor a poll, changes
    the options or the module handle, however it ends.  In particular
    [exit()] does not clear [this.emscripten]: the handle of the exited
    module stays in the object. *)
Theorem operations_keep_options_and_module (x : Externals) (steps : list SessionStep)
    (e : Emulator) :
  options (runSession x steps e) = options e /\
  emscripten (runSession x steps e) = emscripten e.
Proof.
  revert e. induction steps as [|s steps IH]; intros e; [split; reflexivity|].
  cbn [runSession]. destruct (IH (sessionStep x s e)) as [Ho Hm].
  rewrite Ho, Hm. unfold sessionStep, after, saveState_finish, loadState_start,
    loadState_finish.
  destruct s as [op|statusCode| | | | |blob| |fileName st].
  - split; apply keeps_perform; reflexivity.
  - split; apply keeps_exit; reflexivity.
  - split; apply keeps_stdin; reflexivity.
  - split; apply keeps_saveState_start; reflexivity.
  - split; apply keeps_clearStateFile; reflexivity.
  - split; apply keeps_clearStateFile; reflexivity.
  - split; apply keeps_loadState_write; reflexivity.
  - split; apply keeps_sendCommand; reflexivity.
  - split; apply keeps_pollResume; reflexivity.
Qed.

(** ** The queue during a whole session *)

Lemma appends_of_keeps {A} (m : M A) : keeps messageQueue m -> appends m.
Proof. intros H e. exists []. rewrite H. cbn [List.map]. now rewrite app_nil_r. Qed.

Lemma appends_sendCommand (msg : RetroArchCommand) : appends (sendCommand msg).
Proof. intros e. exists [msg]. reflexivity. Qed.

Lemma appends_bind {A C} (m : M A) (k : A -> M C) :
  appends m -> (forall a, appends (k a)) -> appends (bind m k).
Proof.
  intros Hm Hk e. unfold bind. destruct (Hm e) as [cmds1 H1].
  destruct (m e) as [[a|err] e1]; cbn [snd] in *.
  - destruct (Hk a e1) as [cmds2 H2]. exists (cmds1 ++ cmds2).
    rewrite H2, H1, List.map_app, app_assoc. reflexivity.
  - exists cmds1. exact H1.
Qed.

(** Methods that leave the queue as it is. *)
Ltac keeps_queue :=
  repeat first
    [ apply keeps_waitForEmscriptenFile; intros; reflexivity
    | apply keeps_clearStateFile; intros; reflexivity
    | apply keeps_destructure_emscripten
    | apply keeps_FS_unlink_call; intros; reflexivity
    | apply keeps_ret
    | apply keeps_throw
    | apply keeps_get
    | apply keeps_getter
    | apply keeps_update; intros ?; reflexivity
    | apply keeps_try_catch
    | apply keeps_pollStart; intros; reflexivity
    | apply keeps_pollResume; intros; reflexivity
    | apply keeps_Promise_all2; intros; reflexivity
    | apply keeps_bind; [|intros ?]
    | match goal with
      | |- keeps _ (match ?v with _ => _ end) => destruct v
      end ].

(** Methods that append commands: the parts that do not send are handled by
    [keeps_queue], the others by following the shape of the method. *)
Ltac appends_method :=
  repeat first
    [ apply appends_of_keeps; solve [keeps_queue]
    | apply appends_sendCommand
    | apply appends_bind; [|intros ?]
    | match goal with
      | |- appends (match ?v with _ => _ end) => destruct v
      end ].

Lemma appends_perform (x : Externals) (op : Operation) : appends (perform x op).
Proof.
  destruct op;
    unfold perform, pause, resume, restart, resume, saveState, loadState, resize;
    appends_method.
Qed.

Lemma appends_saveState_start (x : Externals) : appends (saveState_start x).
Proof. unfold saveState_start. appends_method. Qed.

Lemma frontOnly_app_untouched (q added : list (list byte * nat)) :
  frontOnly q -> Forall untouched added -> frontOnly (q ++ added).
Proof.
  destruct q as [|m rest]; intros Hq Hadded; cbn [app frontOnly].
  - destruct added as [|m added]; [exact I|]. now inversion Hadded.
  - apply Forall_app. split; assumption.
Qed.

Lemma queueInvariant_app (q : list (list byte * nat)) (cmds : list RetroArchCommand) :
  queueInvariant q ->
  queueInvariant (q ++ List.map (fun c => (wire c, 0)) cmds).
Proof.
  intros (Hfront & Hbounds & Hcmds). repeat split.
  - apply frontOnly_app_untouched; [exact Hfront|].
    apply Forall_map, Forall_forall. intros c _. reflexivity.
  - apply Forall_app. split; [exact Hbounds|].
    apply Forall_map, Forall_forall. intros c _. unfold inBounds. cbn [fst snd]. lia.
  - apply Forall_app. split; [exact Hcmds|].
    apply Forall_map, Forall_forall. intros c _. exists c. reflexivity.
Qed.

Lemma stdin_loop_bounds (q : list (list byte * nat)) :
  Forall inBounds q ->
  Forall (fun m => exists c, fst m = wire c) q ->
  Forall inBounds (snd (stdin_loop q)) /\
  Forall (fun m => exists c, fst m = wire c) (snd (stdin_loop q)).
Proof.
  induction q as [|[msg index] rest IH]; intros Hb Hc; cbn [stdin_loop].
  - split; constructor.
  - inversion Hb as [|? ? Hb1 Hb2]; inversion Hc as [|? ? Hc1 Hc2]; subst.
    destruct (Nat.leb_spec (List.length msg) index) as [Hle|Hlt]; cbn [snd].
    + now apply IH.
    + split; constructor; auto. unfold inBounds. cbn [fst snd]. lia.
Qed.

Lemma queueInvariant_stdin_loop (q : list (list byte * nat)) :
  queueInvariant q -> queueInvariant (snd (stdin_loop q)).
Proof.
  intros (Hfront & Hbounds & Hcmds).
  destruct (stdin_loop_bounds Hbounds Hcmds) as [Hb Hc].
  repeat split; auto. now apply stdin_loop_frontOnly.
Qed.

Lemma sessionStep_queueInvariant (x : Externals) (s : SessionStep) (e : Emulator) :
  queueInvariant (messageQueue e) ->
  queueInvariant (messageQueue (sessionStep x s e)).
Proof.
  intros H.
  destruct s as [op|statusCode| | | | |blob| |fileName st]; unfold sessionStep, after.
  - destruct (appends_perform x op e) as [cmds ->]. now apply queueInvariant_app.
  - rewrite (@keeps_exit _ messageQueue) by reflexivity. exact H.
  - rewrite stdin_run. cbn [snd set_messageQueue messageQueue].
    now apply queueInvariant_stdin_loop.
  - destruct (appends_saveState_start x e) as [cmds ->]. now apply queueInvariant_app.
  - unfold saveState_finish.
    rewrite (@keeps_clearStateFile _ messageQueue) by reflexivity. exact H.
  - unfold loadState_start.
    rewrite (@keeps_clearStateFile _ messageQueue) by reflexivity. exact H.
  - rewrite (@keeps_loadState_write _ messageQueue) by reflexivity. exact H.
  - unfold loadState_finish.
    destruct (appends_sendCommand LOAD_STATE e) as [cmds ->].
    now apply queueInvariant_app.
  - rewrite (@keeps_pollResume _ messageQueue) by reflexivity. exact H.
Qed.

(** X16.  The invariant of the command queue holds throughout a session.
    Start with an empty queue and let the steps of a session follow one
    another in any order: calls of the host to the operations of the
    controller and to [exit], whether or not they throw, polls of the
    program, and the stretches of [saveState] and [loadState] between their
    awaits (their start, the timers of their polls, their end), so that polls
    and calls may fall inside a save or a load that is waiting.  Then at
    every point only commands are queued, each with its index within its
    bytes, and every entry behind the front one is still unread. *)
Theorem queue_invariant_holds_in_every_session (x : Externals)
    (steps : list SessionStep) (e : Emulator) :
  messageQueue e = [] ->
  (forall i m,
      nth_error (messageQueue (runSession x steps e)) (S i) = Some m -> snd m = 0) /\
  (forall m,
      In m (messageQueue (runSession x steps e)) ->
      snd m <= List.length (fst m) /\
      exists c, fst m = encoder_encode (commandName c ++ LF)).
Proof.
  intros Hq.
  assert (Hinv : queueInvariant (messageQueue (runSession x steps e))).
  { assert (H0 : queueInvariant (messageQueue e)).
    { rewrite Hq. repeat split; constructor. }
    clear Hq. revert e H0. induction steps as [|s steps IH]; intros e H0; [exact H0|].
    cbn [runSession]. apply IH. now apply sessionStep_queueInvariant. }
  destruct Hinv as (Hfront & Hbounds & Hcmds). split.
  - intros i m Hm.
    destruct (messageQueue (runSession x steps e)) as [|front rest]; [discriminate|].
    cbn [nth_error frontOnly] in *. apply nth_error_In in Hm.
    rewrite Forall_forall in Hfront. exact (Hfront m Hm).
  - intros m Hm. rewrite Forall_forall in Hbounds, Hcmds.
    split; [exact (Hbounds m Hm)|exact (Hcmds m Hm)].
Qed.

Lemma queue_invariant_holds_in_every_session_witness :
  (forall i m,
      nth_error
        (messageQueue
           (runSession silent_world
              [host_calls call_pause; saveState_starts; program_polls;
               timer_fires "s.state" pollInitial; host_calls call_resume;
               program_polls; host_exits 0; saveState_finishes]
              (launched pong_options))) (S i) = Some m -> snd m = 0) /\
  (forall m,
      In m
        (messageQueue
           (runSession silent_world
              [host_calls call_pause; saveState_starts; program_polls;
               timer_fires "s.state" pollInitial; host_calls call_resume;
               program_polls; host_exits 0; saveState_finishes]
              (launched pong_options))) ->
      snd m <= List.length (fst m) /\
      exists c, fst m = encoder_encode (commandName c ++ LF)).
Proof.
  exact (@queue_invariant_holds_in_every_session silent_world
           [host_calls call_pause; saveState_starts; program_polls;
            timer_fires "s.state" pollInitial; host_calls call_resume;
            program_polls; host_exits 0; saveState_finishes]
           (launched pong_options) eq_refl).
Defined.

(** A session in which the program polls twice and the host resumes the game
    while a save is waiting: the front command has been read up to its third
    byte, the two commands queued meanwhile are untouched. *)
Example polls_during_a_save :
  messageQueue
    (runSession silent_world
       [host_calls call_pause; saveState_starts; program_polls;
        timer_fires "/home/web_user/retroarch/userdata/states/FCEUmm/pong1k.state"
          pollInitial;
        host_calls call_resume; program_polls]
       (launched pong_options)) =
  [(wire PAUSE_TOGGLE, 2); (wire SAVE_STATE, 0); (wire PAUSE_TOGGLE, 0)].
Proof. reflexivity. Qed.

Lemma thumbnail_switch_is_lost_after_setup_witness :
  outcome (setupRaConfigFile no_thumbnail_world ;; saveState no_thumbnail_world)
    (launched (thumbnail_options false)) = Throw (Error "fs timeout").
Proof.
  apply (@thumbnail_switch_is_lost_after_setup no_thumbnail_world
           (launched (thumbnail_options false)) EmscriptenHandle
           "/home/web_user/retroarch/userdata/states/FCEUmm/pong1k.state").
  - reflexivity.
  - reflexivity.
  - reflexivity.
  - intros j _. reflexivity.
Defined.

(** Without the configuration having been written, the same call on the same
    files resolves without a thumbnail. *)
Example saveState_before_setup_honours_the_switch :
  outcome (saveState no_thumbnail_world) (launched (thumbnail_options false)) =
    Return (Some {| state := octet_stream (Some [Byte.x01; Byte.x02]);
                    thumbnail := None |}).
Proof. reflexivity. Qed.

(** X17.  [loadState] never silently does nothing.  Before the module is
    instantiated it rejects with the TypeError of [clearStateFile] and leaves
    the object as it was, and so do [resize] and the poller; and whenever
    [loadState] returns normally the module was there and LOAD_STATE is the
    last command queued. *)
Theorem loadState_never_skips (x : Externals) (blob : Blob) (e : Emulator) :
  (emscripten e = None ->
   loadState x blob e = (Throw destructure_error, e) /\
   (forall width height, resize width height e = (Throw destructure_error, e)) /\
   (forall path, waitForEmscriptenFile x path e = (Throw destructure_error, e))) /\
  (outcome (loadState x blob) e = Return tt ->
   emscripten e <> None /\
   exists earlier,
     messageQueue (after (loadState x blob) e) = earlier ++ [(wire LOAD_STATE, 0)]).
Proof.
  split.
  - intros Hnone. repeat split; intros;
      unfold loadState, resize, waitForEmscriptenFile, waitForEmscriptenFileN,
        clearStateFile, destructure_emscripten, bind, get;
      rewrite Hnone; reflexivity.
  - intros Hout. destruct (emscripten e) as [h|] eqn:Hh.
    + split; [discriminate|].
      destruct (clearStateFile_unlinks x e Hh) as (cs1 & _ & Hclear1).
      revert Hout. unfold outcome, after, loadState.
      rewrite bind_run, Hclear1, get_run.
      change (emscripten (add_calls cs1 e)) with (emscripten e). rewrite Hh.
      rewrite getter_run.
      destruct (stateFileName x (add_calls cs1 e)) as [path|err] eqn:Hpath;
        [|discriminate].
      rewrite update_run, getter_run.
      change (stateFileName x (log_call _ (add_calls cs1 e)))
        with (stateFileName x (add_calls cs1 e)).
      rewrite Hpath, bind_run.
      destruct (waitForEmscriptenFile x path _) as [[r|err] e3]; [|discriminate].
      intros _. rewrite sendCommand_run. cbn [snd set_messageQueue messageQueue].
      eexists. reflexivity.
    + exfalso. revert Hout.
      unfold outcome, loadState, clearStateFile, destructure_emscripten, bind, get.
      rewrite Hh. discriminate.
Qed.

Lemma loadState_never_skips_witness :
  emscripten (launched pong_options) <> None /\
  exists earlier,
    messageQueue
      (after (loadState steady_world {| blobParts := Some [Byte.x07]; type := "" |})
         (launched pong_options)) = earlier ++ [(wire LOAD_STATE, 0)].
Proof.
  exact (proj2 (@loadState_never_skips steady_world
                  {| blobParts := Some [Byte.x07]; type := "" |}
                  (launched pong_options)) eq_refl).
Defined.

(** ** File names resolved by the facade *)

Lemma replaceIllegal_legal (s : string) :
  forall c, In c (list_ascii_of_string (replaceIllegal s)) -> illegalInFileName c = false.
Proof.
  induction s as [|a s IH]; intros c H; [contradiction|].
  cbn [replaceIllegal list_ascii_of_string In] in H. destruct H as [H|H].
  - subst c. destruct (illegalInFileName a) eqn:Ha; [reflexivity|exact Ha].
  - now apply IH.
Qed.

Lemma replaceIllegal_length (s : string) :
  String.length (replaceIllegal s) = String.length s.
Proof. induction s as [|a s IH]; [reflexivity|]. cbn. now rewrite IH. Qed.

Lemma replaceIllegal_id (s : string) :
  (forall c, In c (list_ascii_of_string s) -> illegalInFileName c = false) ->
  replaceIllegal s = s.
Proof.
  induction s as [|a s IH]; intros H; [reflexivity|].
  cbn [replaceIllegal]. rewrite (H a) by (left; reflexivity).
  rewrite IH; [reflexivity|]. intros c Hc. apply H. right. exact Hc.
Qed.

Lemma resolveFile_fileName_legal (fileName : string) :
  forall c, In c (list_ascii_of_string (resolveFile_fileName fileName)) ->
            illegalInFileName c = false.
Proof.
  unfold resolveFile_fileName. destruct (String.eqb fileName "").
  - intros c H. cbn in H.
    repeat (destruct H as [H|H]; [subst c; reflexivity|]). contradiction.
  - apply replaceIllegal_legal.
Qed.

(** X18.  The file name the facade resolves is never empty and contains none
    of the ten characters it replaces; an empty name becomes rom.bin, any
    other name keeps its length, a name without those characters is returned
    as it is, and resolving a resolved name changes nothing. *)
Theorem resolveFile_fileName_is_clean (fileName : string) :
  resolveFile_fileName fileName <> "" /\
  (forall c, In c (list_ascii_of_string (resolveFile_fileName fileName)) ->
             illegalInFileName c = false) /\
  (fileName = "" -> resolveFile_fileName fileName = "rom.bin") /\
  (fileName <> "" ->
   String.length (resolveFile_fileName fileName) = String.length fileName) /\
  (fileName <> "" ->
   (forall c, In c (list_ascii_of_string fileName) -> illegalInFileName c = false) ->
   resolveFile_fileName fileName = fileName) /\
  resolveFile_fileName (resolveFile_fileName fileName) = resolveFile_fileName fileName.
Proof.
  assert (Hne : resolveFile_fileName fileName <> "").
  { unfold resolveFile_fileName. destruct fileName as [|a s]; discriminate. }
  split; [exact Hne|]. split; [apply resolveFile_fileName_legal|].
  split; [intros ->; reflexivity|]. split.
  { intros H. unfold resolveFile_fileName.
    destruct fileName as [|a s]; [congruence|]. apply replaceIllegal_length. }
  split.
  { intros H Hlegal. unfold resolveFile_fileName.
    destruct fileName as [|a s]; [congruence|]. now apply replaceIllegal_id. }
  unfold resolveFile_fileName at 1.
  destruct (resolveFile_fileName fileName) as [|a s] eqn:Hr; [congruence|].
  cbn [String.eqb]. apply replaceIllegal_id. rewrite <- Hr.
  apply resolveFile_fileName_legal.
Qed.

Lemma substring_chars (s : string) :
  forall n m c,
    In c (list_ascii_of_string (String.substring n m s)) ->
    In c (list_ascii_of_string s).
Proof.
  induction s as [|a s IH]; intros n m c H.
  - destruct n, m; contradiction.
  - destruct n as [|n].
    + destruct m as [|m]; [contradiction|].
      cbn [String.substring list_ascii_of_string In] in *.
      destruct H as [H|H]; [left; exact H|right; exact (IH 0 m c H)].
    + cbn [String.substring] in H. right. exact (IH n m c H).
Qed.

(** X19.  When the first ROM carries a file name resolved by the facade, the
    state path is derived with a base name free of the ten replaced
    characters; the base name has no slash in particular, so the state file
    lies directly in the directory states/[coreFullName]/. *)
Theorem state_file_of_resolved_rom (x : Externals) (e : Emulator)
    (first : Asset) (rest : list Asset) (given : string) :
  rom (options e) = first :: rest ->
  fileName first = resolveFile_fileName given ->
  exists baseName,
    stateFileName x e =
      Return (raUserdataDir ++ "states/"
                ++ interpolate (coreFullNameMap x (name (core (options e))))
                ++ "/" ++ baseName ++ ".state")%string /\
    (forall c, In c (list_ascii_of_string baseName) -> illegalInFileName c = false) /\
    ~ In "/"%char (list_ascii_of_string baseName).
Proof.
  intros Hrom Hname.
  exists (slice (fileName first) 0 (lastIndexOf (fileName first) ".")).
  assert (Hlegal : forall c,
            In c (list_ascii_of_string
                    (slice (fileName first) 0 (lastIndexOf (fileName first) "."))) ->
            illegalInFileName c = false).
  { intros c Hc. unfold slice in Hc. apply substring_chars in Hc.
    rewrite Hname in Hc. exact (resolveFile_fileName_legal _ _ Hc). }
  split; [unfold stateFileName; rewrite Hrom; reflexivity|].
  split; [exact Hlegal|].
  intros Hslash. apply Hlegal in Hslash. discriminate Hslash.
Qed.

Lemma state_file_of_resolved_rom_witness :
  exists baseName,
    stateFileName silent_world
      (constructor {| rom := [{| fileName := "a-b-c.nes"; fileContent := [] |}];
                      bios := [];
                      core := {| name := "fceumm"; js := ""; wasm := [] |};
                      retroarch := [] |}) =
      Return (raUserdataDir ++ "states/"
                ++ interpolate (Some "FCEUmm") ++ "/" ++ baseName ++ ".state")%string /\
    (forall c, In c (list_ascii_of_string baseName) -> illegalInFileName c = false) /\
    ~ In "/"%char (list_ascii_of_string baseName).
Proof.
  exact (@state_file_of_resolved_rom silent_world
           (constructor {| rom := [{| fileName := "a-b-c.nes"; fileContent := [] |}];
                           bios := [];
                           core := {| name := "fceumm"; js := ""; wasm := [] |};
                           retroarch := [] |})
           {| fileName := "a-b-c.nes"; fileContent := [] |} [] "a/b:c.nes"
           eq_refl eq_refl).
Defined.
